(** * aws-list: a verification development for [main.go]

    The program lists the running EC2 instances of one or more accounts and
    prints, for each of them, the account, the instance identifier, the
    display name, the AMI and the age of the AMI in days.

    The embedding follows [main.go] function by function.  The mutable
    package variable [cache], the standard output and the history of the
    calls made to the outside world are threaded explicitly through a
    [World]; the answers of the outside world (EC2, STS, the clock, the role
    file) are given by an [Env] whose answers may depend on the whole
    history.  The parts of the Go standard library the program relies on
    ([strings.Split], [time.Parse], [Time.Sub], [Duration.Hours], [float64]
    arithmetic, the [%d] verb) are modelled from their documented behaviour. *)

From Stdlib Require Import ZArith QArith Qround Qpower Lia Lqa Ascii String.
From Stdlib Require PrimFloat FloatOps SpecFloat Uint63.
From stdpp Require Import gmap strings pretty.

(** ** Go [float64] arithmetic

    A finite [float64] is a rational with at most 53 significant bits; every
    operation returns the exact result rounded to nearest, ties to even.
    The exponent range of binary64 is not modelled: the quantities handled by
    the program are hours and days computed from a 64-bit count of
    nanoseconds, which are far from both overflow and underflow. *)

Module Float64.
Local Open Scope Q_scope.

Definition pow2 (e : Z) : Q := 2 ^ e.

(** For [0 < x], the exponent [e] with [2^e <= x < 2^(e+1)]. *)
Definition ilog2 (x : Q) : Z :=
  let e0 := (Z.log2 (Qnum x) - Z.log2 (Z.pos (Qden x)))%Z in
  if Qle_bool (pow2 e0) x then e0 else (e0 - 1)%Z.

(** Rounding to the nearest integer, ties to the even one. *)
Definition rne (m : Q) : Z :=
  let f := Qfloor m in
  match Qcompare (m - inject_Z f) (1 # 2) with
  | Lt => f
  | Gt => (f + 1)%Z
  | Eq => if Z.even f then f else (f + 1)%Z
  end.

(** Rounding of a positive number to 53 significant bits. *)
Definition round53 (x : Q) : Q :=
  let e := (ilog2 x - 52)%Z in
  Qred (inject_Z (rne (x / pow2 e)) * pow2 e).

Definition RN (x : Q) : Q :=
  match Qcompare x 0 with
  | Eq => 0
  | Gt => round53 x
  | Lt => - round53 (- x)
  end.

(** [float64(z)], [x + y], [x / y] and [int(x)]. *)
Definition float64_of_int (z : Z) : Q := RN (inject_Z z).
Definition fadd (x y : Q) : Q := RN (x + y).
Definition fdiv (x y : Q) : Q := RN (x / y).
Definition int_of_float64 (x : Q) : Z := Z.quot (Qnum x) (Z.pos (Qden x)).

End Float64.
Import Float64.

Local Open Scope Z_scope.

(** ** Strings: the pieces of [strings] and [fmt] that are used *)

Definition error := option string.

Definition newline : string := String "010"%char EmptyString.
Definition dquote : string := String "034"%char EmptyString.

Definition strings_HasPrefix (s prefix : string) : bool := String.prefix prefix s.

(** [strings.Split(s, sep)] for a separator of one byte. *)
Fixpoint strings_Split (s : string) (sep : ascii) : list string :=
  match s with
  | EmptyString => [EmptyString]
  | String c s' =>
      if Ascii.eqb c sep then EmptyString :: strings_Split s' sep
      else match strings_Split s' sep with
           | field :: fields => String c field :: fields
           | [] => [String c EmptyString]
           end
  end.

Fixpoint strings_Contains (s substr : string) : bool :=
  String.prefix substr s ||
  match s with
  | EmptyString => false
  | String _ s' => strings_Contains s' substr
  end.

(** The verb [%d]. *)
Definition fmt_d (n : Z) : string := pretty n.

(** ** Time: the pieces of the package [time] that are used *)

(** A [Duration] is a signed 64-bit count of nanoseconds. *)
Definition Duration := Z.
Definition Nanosecond : Duration := 1.
Definition Microsecond : Duration := 1000 * Nanosecond.
Definition Millisecond : Duration := 1000 * Microsecond.
Definition Second : Duration := 1000 * Millisecond.
Definition Minute : Duration := 60 * Second.
Definition Hour : Duration := 60 * Minute.
(** A day of 24 hours (not a constant of the package). *)
Definition Day : Duration := 24 * Hour.
Definition minDuration : Duration := - 2 ^ 63.
Definition maxDuration : Duration := 2 ^ 63 - 1.

(** An instant, as the number of nanoseconds since 1970-01-01T00:00:00Z. *)
Definition Time := Z.

(** [t.Sub(u)]: the difference, or the extreme duration when it does not fit. *)
Definition Time_Sub (t u : Time) : Duration :=
  let d := t - u in
  if d <? minDuration then minDuration
  else if maxDuration <? d then maxDuration
  else d.

(** [d.Hours()]. *)
Definition Duration_Hours (d : Duration) : Q :=
  let hour := Z.quot d Hour in
  let nsec := Z.rem d Hour in
  fadd (float64_of_int hour) (fdiv (float64_of_int nsec) (60 * 60 * 1000000000)%Q).

Definition isLeap (year : Z) : bool :=
  (Z.rem year 4 =? 0) && (negb (Z.rem year 100 =? 0) || (Z.rem year 400 =? 0)).

Definition daysBefore : list Z :=
  [0; 31; 59; 90; 120; 151; 181; 212; 243; 273; 304; 334; 365].

Definition daysIn (month year : Z) : Z :=
  if (month =? 2) && isLeap year then 29
  else nth (Z.to_nat month) daysBefore 0 - nth (Z.to_nat (month - 1)) daysBefore 0.

(** Leap years from year 1 up to and including [year]. *)
Definition leapsThrough (year : Z) : Z := year / 4 - year / 100 + year / 400.

(** [time.Date(year, month, day, hour, min, sec, nsec, time.UTC)] for a date
    of the calendar (no normalisation of out of range fields is needed). *)
Definition time_Date (year month day hour min sec nsec : Z) : Time :=
  let d := 365 * (year - 1970) + (leapsThrough (year - 1) - leapsThrough 1969)
           + nth (Z.to_nat (month - 1)) daysBefore 0
           + (if isLeap year && (3 <=? month) then 1 else 0)
           + (day - 1) in
  (d * 86400 + hour * 3600 + min * 60 + sec) * Second + nsec.

Definition layout : string := "2006-01-02T15:04:05.000Z".

(** [time.quote]: the value between double quotes.  A double quote or a
    backslash is preceded by a backslash; a byte below 0x20 or from 0x80 on
    is written as a backslash, an [x] and its two hexadecimal digits.  The
    loop of [time.quote] goes over the runes of the value and escapes every
    byte of a rune that is not ASCII, and every byte that is no rune; all
    these bytes are 0x80 or more, so the loop is written over the bytes. *)
Definition lowerhex : string := "0123456789abcdef".

Definition backslash : ascii := "092"%char.

Definition hexDigit (n : nat) : string :=
  match String.get n lowerhex with
  | Some c => String c EmptyString
  | None => EmptyString
  end.

Fixpoint quoteBytes (s : string) : string :=
  match s with
  | EmptyString => EmptyString
  | String c s' =>
      let n := nat_of_ascii c in
      (if (128 <=? n)%nat || (n <? 32)%nat
       then String backslash "x" +:+ hexDigit (n / 16) +:+ hexDigit (n mod 16)
       else if Ascii.eqb c "034" || Ascii.eqb c backslash
            then String backslash (String c EmptyString)
            else String c EmptyString)
      +:+ quoteBytes s'
  end.

Definition quote (s : string) : string := dquote +:+ quoteBytes s +:+ dquote.

(** The text of a [*time.ParseError]. *)
Definition ParseError_elem (value layoutElem valueElem : string) : string :=
  "parsing time " +:+ quote value +:+ " as " +:+ quote layout +:+
  ": cannot parse " +:+ quote valueElem +:+ " as " +:+ quote layoutElem.

Definition ParseError_msg (value message : string) : string :=
  "parsing time " +:+ quote value +:+ message.

Definition digitVal (c : ascii) : option Z :=
  let n := Z.of_nat (nat_of_ascii c) in
  if (48 <=? n) && (n <=? 57) then Some (n - 48) else None.

Definition isDigit (s : string) (i : nat) : bool :=
  match String.get i s with
  | Some c => match digitVal c with Some _ => true | None => false end
  | None => false
  end.

Definition string_drop (n : nat) (s : string) : string :=
  String.substring n (String.length s - n) s.

(** [leadingInt] on a string that must consist of digits only. *)
Fixpoint digits (acc : Z) (s : string) : option Z :=
  match s with
  | EmptyString => Some acc
  | String c s' =>
      match digitVal c with
      | Some v => digits (acc * 10 + v) s'
      | None => None
      end
  end.

Definition atoi (s : string) : option Z :=
  match s with
  | String "-" s' => option_map Z.opp (digits 0 s')
  | String "+" s' => digits 0 s'
  | _ => digits 0 s
  end.

Definition getnum (s : string) (fixed : bool) : option (Z * string) :=
  match s with
  | String c0 s1 =>
      match digitVal c0 with
      | None => None
      | Some v0 =>
          match s1 with
          | String c1 s2 =>
              match digitVal c1 with
              | Some v1 => Some (v0 * 10 + v1, s2)
              | None => if fixed then None else Some (v0, s1)
              end
          | EmptyString => if fixed then None else Some (v0, s1)
          end
      end
  | EmptyString => None
  end.

(** [skip] for a prefix without spaces. *)
Definition skip (value prefix : string) : option string :=
  if String.prefix prefix value then Some (string_drop (String.length prefix) value)
  else None.

Definition commaOrPeriod (c : ascii) : bool :=
  Ascii.eqb c "." || Ascii.eqb c ",".

Definition bindE {A B : Type} (x : A + string) (f : A -> B + string) : B + string :=
  match x with
  | inl a => f a
  | inr e => inr e
  end.

Notation "'let*' p := e 'in' k" := (bindE e (fun p => k))
  (at level 10, p pattern, e at level 100, k at level 200).

Definition expect (avalue pre value : string) : string + string :=
  match skip value pre with
  | Some v => inl v
  | None => inr (ParseError_elem avalue pre value)
  end.

Definition number (avalue std : string) (fixed : bool) (value : string)
  : (Z * string) + string :=
  match getnum value fixed with
  | Some r => inl r
  | None => inr (ParseError_elem avalue std value)
  end.

Definition inRange (avalue what : string) (ok : bool) : unit + string :=
  if ok then inl tt else inr (ParseError_msg avalue (": " +:+ what +:+ " out of range")).

(** [time.Parse("2006-01-02T15:04:05.000Z", value)]: the elements of the
    layout are matched from left to right, the first failure is reported. *)
Definition time_Parse (avalue : string) : Time + string :=
  let* (year, v) :=
     (if (String.length avalue <? 4)%nat || negb (isDigit avalue 0)
      then inr (ParseError_elem avalue "2006" avalue)
      else match atoi (String.substring 0 4 avalue) with
           | Some y => inl (y, string_drop 4 avalue)
           | None => inr (ParseError_elem avalue "2006" avalue)
           end) in
  let* v := expect avalue "-" v in
  let* (month, v) := number avalue "01" true v in
  let* _ := inRange avalue "month" ((0 <? month) && (month <=? 12)) in
  let* v := expect avalue "-" v in
  let* (day, v) := number avalue "02" true v in
  let* v := expect avalue "T" v in
  let* (hour, v) := number avalue "15" false v in
  let* _ := inRange avalue "hour" (hour <? 24) in
  let* v := expect avalue ":" v in
  let* (min, v) := number avalue "04" true v in
  let* _ := inRange avalue "minute" (min <? 60) in
  let* v := expect avalue ":" v in
  let* (sec, v) := number avalue "05" true v in
  let* _ := inRange avalue "second" (sec <? 60) in
  let* (nsec, v) :=
     (if (String.length v <? 4)%nat then inr (ParseError_elem avalue ".000" v)
      else match String.get 0 v with
           | Some c =>
               if commaOrPeriod c then
                 match atoi (String.substring 1 3 v) with
                 | Some ns =>
                     if ns <? 0
                     then inr (ParseError_msg avalue ": fractional second out of range")
                     else inl (ns * 1000000, string_drop 4 v)
                 | None => inr (ParseError_elem avalue ".000" v)
                 end
               else inr (ParseError_elem avalue ".000" v)
           | None => inr (ParseError_elem avalue ".000" v)
           end) in
  let* v := expect avalue "Z" v in
  if negb (String.eqb v "")
  then inr (ParseError_msg avalue (": extra text: " +:+ quote v))
  else if (day <? 1) || (daysIn month year <? day)
  then inr (ParseError_msg avalue ": day out of range")
  else inl (time_Date year month day hour min sec nsec).


(** ** The AWS SDK types that are used

    The SDK has these fields as [*string], and the program dereferences them
    without a check: [result.Images[0].CreationDate], [instance.InstanceId],
    [tag.Key], [tag.Value], [instance.ImageId] and the [Account] of the
    caller's identity.  An answer that leaves one of them out makes the
    program panic at that place.  Such answers are not modelled: the fields
    are strings, so everything below is about answers of the service that
    have these fields, as the answers of EC2 and STS do. *)

Record Tag := { Key : string; Value : string }.

Record Instance := {
  InstanceId : string;
  ImageId : string;
  Tags : list Tag;
  State : string   (* [State.Name], which the program never reads *)
}.

Record Reservation := { Instances : list Instance }.

Record Filter := { Name : string; Values : list string }.

Record DescribeInstancesInput := { Filters : list Filter }.
Record DescribeInstancesOutput := { Reservations : list Reservation }.

Record Image := { CreationDate : string }.

Record DescribeImagesInput := { ImageIds : list string }.
Record DescribeImagesOutput := { Images : list Image }.

(** An EC2 client: the default credentials of the session, or the
    credentials of an assumed role. *)
Record EC2 := { Credentials : option string }.

(** ** The outside world *)

(** A call to the outside world with the answer that was received; an
    answer is a result or the text of an error. *)
Inductive Event :=
| EvGetCallerIdentity (out : string + string)
| EvDescribeInstances (svc : EC2) (input : DescribeInstancesInput)
    (out : DescribeInstancesOutput + string)
| EvDescribeImages (svc : EC2) (input : DescribeImagesInput)
    (out : DescribeImagesOutput + string)
| EvNow (t : Time).

(** The answers of the outside world, which may depend on everything that
    happened before. *)
Record Env := {
  session_NewSession : error;
  sts_GetCallerIdentity : list Event -> string + string;
  ec2_DescribeInstances :
    list Event -> EC2 -> DescribeInstancesInput -> DescribeInstancesOutput + string;
  ec2_DescribeImages :
    list Event -> EC2 -> DescribeImagesInput -> DescribeImagesOutput + string;
  time_Now : list Event -> Time;
  (* the lines that the scanner yields and the error it ends with,
     or the error of [os.Open] *)
  os_Open : string -> (list string * error) + string
}.

(** The state of the process: the package variable [cache], what was
    written to the standard output, and the history of calls. *)
Record World := {
  cache : gmap string string;
  stdout : list string;
  trace : list Event
}.

Definition initial : World := {| cache := ∅; stdout := []; trace := [] |}.

Definition set_cache (c : gmap string string) (w : World) : World :=
  {| cache := c; stdout := stdout w; trace := trace w |}.

Definition fmt_Printf (s : string) (w : World) : World :=
  {| cache := cache w; stdout := stdout w ++ [s]; trace := trace w |}.

Definition record (e : Event) (w : World) : World :=
  {| cache := cache w; stdout := stdout w; trace := trace w ++ [e] |}.

Definition GetCallerIdentity (env : Env) (w : World) : (string + string) * World :=
  let out := sts_GetCallerIdentity env (trace w) in
  (out, record (EvGetCallerIdentity out) w).

Definition DescribeInstances (env : Env) (svc : EC2) (input : DescribeInstancesInput)
    (w : World) : (DescribeInstancesOutput + string) * World :=
  let out := ec2_DescribeInstances env (trace w) svc input in
  (out, record (EvDescribeInstances svc input out) w).

Definition DescribeImages (env : Env) (svc : EC2) (input : DescribeImagesInput)
    (w : World) : (DescribeImagesOutput + string) * World :=
  let out := ec2_DescribeImages env (trace w) svc input in
  (out, record (EvDescribeImages svc input out) w).

Definition Now (env : Env) (w : World) : Time * World :=
  let t := time_Now env (trace w) in
  (t, record (EvNow t) w).

(** ** The program *)

(** [amiCreation]: the creation date of the given AMI; values are cached. *)
Definition amiCreation (env : Env) (svc : EC2) (id : string) (w : World)
  : (string * error) * World :=
  match cache w !! id with
  | Some cached => ((cached, None), w)
  | None =>
      let input := {| ImageIds := [id] |} in
      let '(result, w) := DescribeImages env svc input w in
      match result with
      | inr err => (("", Some ("error getting image info: " +:+ err)), w)
      | inl result =>
          match Images result with
          | image :: _ =>
              let date := CreationDate image in
              ((date, None), set_cache (<[id := date]> (cache w)) w)
          | [] => (("", Some ("no date for " +:+ id)), w)
          end
      end
  end.

(** The loop over [instance.Tags] that looks for the name. *)
Definition tagName (instance : Instance) : string :=
  fold_left (fun name tag => if String.eqb (Key tag) "Name" then Value tag else name)
            (Tags instance) (InstanceId instance).

(** The body of the inner loop of [Sync]; an error is the [return] that
    leaves [Sync]. *)
Definition syncInstance (env : Env) (svc : EC2) (acct : string) (instance : Instance)
    (w : World) : error * World :=
  let id := InstanceId instance in
  let name := tagName instance in
  let ami := ImageId instance in
  let '((create, err), w) := amiCreation env svc ami w in
  match err with
  | Some err =>
      (Some ("failed to get creation date of " +:+ ami +:+ ": " +:+ err), w)
  | None =>
      match time_Parse create with
      | inr err =>
          (Some ("failed to parse time string " +:+ create +:+ ": " +:+ err), w)
      | inl t =>
          let '(date, w) := Now env w in
          let diff := Time_Sub date t in
          let create := fmt_d (int_of_float64 (fdiv (Duration_Hours diff) 24)) +:+ " days" in
          (None,
           fmt_Printf (acct +:+ " " +:+ id +:+ " " +:+ name +:+ " " +:+ ami +:+ " "
                       +:+ create +:+ newline) w)
      end
  end.

(** A [for ... range] loop whose body may return from the function. *)
Fixpoint forRange {A : Type} (body : A -> World -> error * World) (l : list A)
    (w : World) : error * World :=
  match l with
  | [] => (None, w)
  | x :: l' =>
      match body x w with
      | (Some err, w) => (Some err, w)
      | (None, w) => forRange body l' w
      end
  end.

(** [Sync]: the instances which are running or pending, one line each. *)
Definition Sync (env : Env) (svc : EC2) (acct : string) (w : World) : error * World :=
  let params :=
    {| Filters := [ {| Name := "instance-state-name";
                       Values := ["running"; "pending"] |} ] |} in
  let '(result, w) := DescribeInstances env svc params w in
  match result with
  | inr err => (Some ("DescribeInstances failed: " +:+ err), w)
  | inl result =>
      forRange (fun reservation =>
                  forRange (syncInstance env svc acct) (Instances reservation))
               (Reservations result) w
  end.

(** How [main] ends: by returning, or by a run-time panic. *)
Inductive Exit :=
| Returned
| Panicked (msg : string).

(** The body of the loop over the lines of the role file. *)
Definition syncRole (env : Env) (role : string) (w : World) : Exit * World :=
  if strings_HasPrefix role "#" then (Returned, w)
  else
    let svc := {| Credentials := Some role |} in
    let data := strings_Split role ":" in
    match data !! 4%nat with
    | None =>
        (Panicked ("runtime error: index out of range [4] with length "
                   +:+ pretty (length data)), w)
    | Some acct =>
        let '(err, w) := Sync env svc acct w in
        match err with
        | Some err =>
            (Returned, fmt_Printf ("Error for role " +:+ role +:+ " " +:+ err +:+ newline) w)
        | None => (Returned, w)
        end
    end.

Fixpoint roleLoop (env : Env) (lines : list string) (w : World) : Exit * World :=
  match lines with
  | [] => (Returned, w)
  | role :: lines' =>
      match syncRole env role w with
      | (Panicked msg, w) => (Panicked msg, w)
      | (Returned, w) => roleLoop env lines' w
      end
  end.

(** [main], given the value of the flag [-roles]. *)
Definition main (env : Env) (roles : string) (w : World) : Exit * World :=
  let w := set_cache ∅ w in
  match session_NewSession env with
  | Some err => (Returned, fmt_Printf ("AWS login failed: " +:+ err +:+ newline) w)
  | None =>
      let '(out, w) := GetCallerIdentity env w in
      match out with
      | inr err => (Returned, fmt_Printf ("Failed to get identity: " +:+ err) w)
      | inl acct =>
          if String.eqb roles "" then
            let svc := {| Credentials := None |} in
            let '(err, w) := Sync env svc acct w in
            match err with
            | Some err =>
                (Returned, fmt_Printf ("error syncing account " +:+ err +:+ newline) w)
            | None => (Returned, w)
            end
          else
            match os_Open env roles with
            | inr err =>
                (Returned,
                 fmt_Printf ("Error opening role-file: " +:+ roles +:+ " " +:+ err
                             +:+ newline) w)
            | inl (lines, scanErr) =>
                match roleLoop env lines w with
                | (Panicked msg, w) => (Panicked msg, w)
                | (Returned, w) =>
                    match scanErr with
                    | Some err =>
                        (Returned,
                         fmt_Printf ("Error processing role-file: " +:+ roles +:+ " "
                                     +:+ err +:+ newline) w)
                    | None => (Returned, w)
                    end
                end
            end
      end
  end.

(** ** Notions used to state the properties *)

(** The age that is printed for an image created at [t] when the clock shows
    [now]: [int(date.Sub(t).Hours() / 24)]. *)
Definition ageAt (now t : Time) : Z :=
  int_of_float64 (fdiv (Duration_Hours (Time_Sub now t)) 24).

(** The line that [Sync] prints for an instance whose image is [days] days old. *)
Definition line (acct : string) (instance : Instance) (days : Z) : string :=
  acct +:+ " " +:+ InstanceId instance +:+ " " +:+ tagName instance +:+ " "
  +:+ ImageId instance +:+ " " +:+ (fmt_d days +:+ " days") +:+ newline.

(** All the instances of an answer, in the order of the answer. *)
Definition allInstances (out : DescribeInstancesOutput) : list Instance :=
  concat (map Instances (Reservations out)).

(** The request that [Sync] sends. *)
Definition params : DescribeInstancesInput :=
  {| Filters := [ {| Name := "instance-state-name";
                     Values := ["running"; "pending"] |} ] |}.

(** An instance with another state. *)
Definition withState (instance : Instance) (state : string) : Instance :=
  {| InstanceId := InstanceId instance; ImageId := ImageId instance;
     Tags := Tags instance; State := state |}.

Definition runningOrPending (instance : Instance) : Prop :=
  State instance = "running" \/ State instance = "pending".

(** The request for the image of an instance. *)
Definition imageRequest (instance : Instance) : DescribeImagesInput :=
  {| ImageIds := [ImageId instance] |}.

(** What can go wrong with the image of an instance: the lookup is answered
    with an error, the lookup finds no image, or the creation date of the
    image does not parse. *)
Inductive Failure :=
| Refused (cause : string)
| NotFound
| Unparsable (create e : string).

(** The creation date that there is for the image of [instance] in [w]: the
    one of the cache, or without one the creation date of the first image
    that the service answers with. *)
Definition obtains (env : Env) (svc : EC2) (w : World) (instance : Instance)
    (create : string) : Prop :=
  match cache w !! ImageId instance with
  | Some cached => create = cached
  | None =>
      exists out image images,
        ec2_DescribeImages env (trace w) svc (imageRequest instance) = inl out /\
        Images out = image :: images /\ create = CreationDate image
  end.

(** The image of [instance] fails in [w], by what the cache has and what the
    service answers now. *)
Definition failure (env : Env) (svc : EC2) (w : World) (instance : Instance)
    (f : Failure) : Prop :=
  match f with
  | Refused cause =>
      cache w !! ImageId instance = None /\
      ec2_DescribeImages env (trace w) svc (imageRequest instance) = inr cause
  | NotFound =>
      cache w !! ImageId instance = None /\
      exists out,
        ec2_DescribeImages env (trace w) svc (imageRequest instance) = inl out /\
        Images out = []
  | Unparsable create e =>
      obtains env svc w instance create /\ time_Parse create = inr e
  end.

(** The error with which [Sync] gives up on an instance. *)
Definition failureText (instance : Instance) (f : Failure) : string :=
  match f with
  | Refused cause =>
      "failed to get creation date of " +:+ ImageId instance +:+ ": "
      +:+ "error getting image info: " +:+ cause
  | NotFound =>
      "failed to get creation date of " +:+ ImageId instance +:+ ": "
      +:+ "no date for " +:+ ImageId instance
  | Unparsable create e =>
      "failed to parse time string " +:+ create +:+ ": " +:+ e
  end.

(** The lookup that is made for the image of [instance] in [w]: none when
    the image is in the cache. *)
Definition lookupOf (env : Env) (svc : EC2) (w : World) (instance : Instance)
    : list Event :=
  match cache w !! ImageId instance with
  | Some _ => []
  | None =>
      [EvDescribeImages svc (imageRequest instance)
         (ec2_DescribeImages env (trace w) svc (imageRequest instance))]
  end.

(** The image of [instance] cannot fail from [w] on: its date is in the
    cache and parses, or it is not in the cache and the service answers a
    lookup of it, whenever it comes, with an image whose date parses. *)
Definition resolves (env : Env) (svc : EC2) (w : World) (instance : Instance) : Prop :=
  match cache w !! ImageId instance with
  | Some create => exists t, time_Parse create = inl t
  | None =>
      forall tr, exists out image images t,
        ec2_DescribeImages env tr svc (imageRequest instance) = inl out /\
        Images out = image :: images /\
        time_Parse (CreationDate image) = inl t
  end.

(** Events that are image lookups of [id], and those that found an image. *)
Definition isLookup (id : string) (e : Event) : bool :=
  match e with
  | EvDescribeImages _ input _ => bool_decide (ImageIds input = [id])
  | _ => false
  end.


Fixpoint count {A : Type} (f : A -> bool) (l : list A) : nat :=
  match l with
  | [] => 0
  | x :: l' => (if f x then 1 else 0) + count f l'
  end.

(** [strings.Join(fields, sep)] for a separator of one byte. *)
Fixpoint strings_Join (fields : list string) (sep : ascii) : string :=
  match fields with
  | [] => EmptyString
  | [field] => field
  | field :: fields' => field +:+ String sep (strings_Join fields' sep)
  end.

Fixpoint noByte (sep : ascii) (s : string) : Prop :=
  match s with
  | EmptyString => True
  | String c s' => c <> sep /\ noByte sep s'
  end.

(** The history and the output of [w'] continue those of [w]. *)
Definition grows (w w' : World) : Prop :=
  trace w `prefix_of` trace w' /\ stdout w `prefix_of` stdout w'.

(** The world after the body of the role loop has run [Sync] with result
    [r] for [role]: an error is reported and the loop goes on. *)
Definition reported (role : string) (r : error * World) : World :=
  match fst r with
  | Some err => fmt_Printf ("Error for role " +:+ role +:+ " " +:+ err +:+ newline) (snd r)
  | None => snd r
  end.

Definition roleClient (role : string) : EC2 := {| Credentials := Some role |}.

(** A line that the role loop can handle: a comment, or a line with a
    fifth field. *)
Definition wellFormed (role : string) : Prop :=
  strings_HasPrefix role "#" = true \/ is_Some (strings_Split role ":" !! 4%nat).



(** The same computation on the binary64 numbers of the machine, to compare
    the model of rounding with. *)
Definition binary64_of_int (z : Z) : PrimFloat.float :=
  if z <? 0 then PrimFloat.opp (PrimFloat.of_uint63 (Uint63.of_Z (- z)))
  else PrimFloat.of_uint63 (Uint63.of_Z z).

Definition binary64_value (f : PrimFloat.float) : option Q :=
  match FloatOps.Prim2SF f with
  | SpecFloat.S754_zero _ => Some 0%Q
  | SpecFloat.S754_finite s m e =>
      let v := (inject_Z (Z.pos m) * pow2 e)%Q in
      Some (Qred (if s then Qopp v else v))
  | _ => None
  end.

Definition binary64_days (d : Duration) : PrimFloat.float :=
  let hour := Z.quot d Hour in
  let nsec := Z.rem d Hour in
  PrimFloat.div
    (PrimFloat.add (binary64_of_int hour)
       (PrimFloat.div (binary64_of_int nsec) (binary64_of_int (60 * 60 * 1000000000))))
    (binary64_of_int 24).

(** ** Sample data *)

(** An instance, from its fields. *)
Definition sampleInstance (id ami state : string) (tags : list Tag) : Instance :=
  {| InstanceId := id; ImageId := ami; Tags := tags; State := state |}.

(** An outside world that always gives the same answers: one reservation
    with the given instances, the given answer for every image, a clock
    that stands still and a role file with the given lines. *)
Definition staticEnv (instances : list Instance)
    (images : string -> DescribeImagesOutput + string) (now : Time)
    (lines : list string) : Env :=
  {| session_NewSession := None;
     sts_GetCallerIdentity := fun _ => inl "123456789091";
     ec2_DescribeInstances := fun _ _ _ =>
       inl {| Reservations := [ {| Instances := instances |} ] |};
     ec2_DescribeImages := fun _ _ input =>
       match ImageIds input with
       | [id] => images id
       | _ => inr "InvalidParameter"
       end;
     time_Now := fun _ => now;
     os_Open := fun _ => inl (lines, None) |}.

Definition imageCreated (date : string) : DescribeImagesOutput + string :=
  inl {| Images := [ {| CreationDate := date |} ] |}.

Definition defaultClient : EC2 := {| Credentials := None |}.

Definition sampleRole : string :=
  "arn:aws:iam::123456789091:role/account-name-ABCDFFDFDKLJ".

Definition sampleDate : string := "2024-01-01T00:00:00.000Z".

(** An answer with an instance that is stopped. *)
Definition stoppedInstance : Instance := sampleInstance "i-0abc" "ami-1" "stopped" [].

Definition stoppedEnv : Env :=
  staticEnv [stoppedInstance] (fun _ => imageCreated sampleDate)
            (time_Date 2024 1 11 0 0 0 0) [].

(** Two instances of the same image, the first one with a name. *)
Definition webInstance : Instance :=
  sampleInstance "i-1" "ami-0123456789abcdef0" "running" [ {| Key := "Name"; Value := "web" |} ].

Definition dbInstance : Instance :=
  sampleInstance "i-2" "ami-0123456789abcdef0" "pending" [].

(** The creation date of the image has no time of day. *)
Definition badDateEnv : Env :=
  staticEnv [webInstance; dbInstance] (fun _ => imageCreated "2019-03-07")
            (time_Date 2024 1 11 0 0 0 0) [].

Definition goodEnv : Env :=
  staticEnv [webInstance; dbInstance] (fun _ => imageCreated sampleDate)
            (time_Date 2024 1 11 0 0 0 0) [].

(** One instance, an image with the given creation date and a clock. *)
Definition ageEnv (date : string) (now : Time) : Env :=
  staticEnv [webInstance] (fun _ => imageCreated date) now [].

Definition otherRole : string :=
  "arn:aws:iam::123456789092:role/dns-account-name-XYZAXYDSFLKJ".

(** The first role may not list instances, the second one may. *)
Definition isolationEnv : Env :=
  {| session_NewSession := None;
     sts_GetCallerIdentity := fun _ => inl "123456789090";
     ec2_DescribeInstances := fun _ svc _ =>
       if bool_decide (Credentials svc = Some sampleRole)
       then inr "UnauthorizedOperation: You are not authorized to perform this operation."
       else inl {| Reservations := [ {| Instances := [webInstance] |} ] |};
     ec2_DescribeImages := fun _ _ _ => imageCreated sampleDate;
     time_Now := fun _ => time_Date 2024 1 11 0 0 0 0;
     os_Open := fun _ => inl ([sampleRole; "# dns"; otherRole], None) |}.

(** Every image lookup is refused; there are two roles. *)
Definition retryEnv : Env :=
  staticEnv [webInstance] (fun _ => inr "RequestLimitExceeded: Request limit exceeded.")
            (time_Date 2024 1 11 0 0 0 0) [sampleRole; otherRole].

(** An instance whose image is not known to the service. *)
Definition lostInstance : Instance :=
  sampleInstance "i-3" "ami-0fedcba9876543210" "running" [].

Definition lostImageEnv : Env :=
  staticEnv [webInstance; lostInstance; dbInstance]
            (fun id => if String.eqb id (ImageId lostInstance)
                       then inl {| Images := [] |}
                       else imageCreated sampleDate)
            (time_Date 2024 1 11 0 0 0 0) [].

(** ** Further notions *)

Definition isComment (role : string) : bool := strings_HasPrefix role "#".

(** The lines of a role file that are not comments. *)
Definition rolesOf (lines : list string) : list string :=
  List.filter (fun role => negb (isComment role)) lines.

(** The clients of the instance listings of a history, in order. *)
Fixpoint listings (tr : list Event) : list EC2 :=
  match tr with
  | [] => []
  | EvDescribeInstances svc _ _ :: tr' => svc :: listings tr'
  | _ :: tr' => listings tr'
  end.

Definition isNow (e : Event) : bool :=
  match e with
  | EvNow _ => true
  | _ => false
  end.

(** A call that was answered with an error, or an image lookup that found
    no image. *)
Definition failedCall (e : Event) : bool :=
  match e with
  | EvGetCallerIdentity (inr _) => true
  | EvDescribeInstances _ _ (inr _) => true
  | EvDescribeImages _ _ (inr _) => true
  | EvDescribeImages _ _ (inl out) =>
      match Images out with [] => true | _ :: _ => false end
  | _ => false
  end.

(** [date] is the creation date of the first image of an answer to a lookup
    of [id] in the history. *)
Definition cachedFrom (tr : list Event) (id date : string) : Prop :=
  exists svc out image images,
    In (EvDescribeImages svc {| ImageIds := [id] |} (inl out)) tr /\
    Images out = image :: images /\ CreationDate image = date.

Definition provenance (w : World) : Prop :=
  forall id date, cache w !! id = Some date -> cachedFrom (trace w) id date.

(** Since [w0], an identifier was looked up at most once, and if it was, it
    is in the cache. *)
Definition lookedUpOnce (w0 w : World) : Prop :=
  forall id,
    count (isLookup id) (trace w) = count (isLookup id) (trace w0) \/
    (count (isLookup id) (trace w) = S (count (isLookup id) (trace w0)) /\
     is_Some (cache w !! id)).

(** The image of the instance is in the cache, with a date that parses. *)
Definition resolved (w : World) (instance : Instance) : Prop :=
  exists date t, cache w !! ImageId instance = Some date /\ time_Parse date = inl t.

(** The image lookups of a history: the client and the identifiers asked
    for, in order. *)
Fixpoint lookups (tr : list Event) : list (EC2 * list string) :=
  match tr with
  | [] => []
  | EvDescribeImages svc input _ :: tr' => (svc, ImageIds input) :: lookups tr'
  | _ :: tr' => lookups tr'
  end.

(** Nothing to list, and no role file. *)
Definition quietEnv : Env := staticEnv [] (fun _ => imageCreated sampleDate) 0 [].

(** * Properties *)

(** ** Rounding to nearest *)

Module Float64Facts.
Local Open Scope Q_scope.

Lemma pow2_pos e : 0 < pow2 e.
Proof. apply Qpower_0_lt. reflexivity. Qed.

Lemma pow2_add a b : pow2 (a + b) == pow2 a * pow2 b.
Proof. apply Qpower_plus. discriminate. Qed.

Lemma pow2_le a b : (a <= b)%Z -> pow2 a <= pow2 b.
Proof. intros H. apply Qpower_le_compat_l; [exact H | discriminate]. Qed.

Lemma pow2_lt a b : (a < b)%Z -> pow2 a < pow2 b.
Proof. intros H. apply Qpower_lt_compat_l; [exact H | reflexivity]. Qed.

Lemma pow2_Z n : (0 <= n)%Z -> inject_Z (2 ^ n) == pow2 n.
Proof. intros H. unfold pow2. rewrite Zpower_Qpower by exact H. reflexivity. Qed.

Lemma pow2_sub a b : pow2 (a - b) * pow2 b == pow2 a.
Proof. rewrite <- pow2_add. replace (a - b + b)%Z with a by lia. reflexivity. Qed.

(* comparing a fraction with a power of two, through integers *)
Lemma frac_lt_pow2 (a : Z) (b : positive) (c d : Z) :
  (0 <= c)%Z -> (0 <= d)%Z ->
  (a * 2 ^ d < 2 ^ c * Z.pos b)%Z -> a # b < pow2 (c - d).
Proof.
  intros Hc Hd H.
  apply (Qmult_lt_r _ _ (pow2 d)); [apply pow2_pos|].
  rewrite pow2_sub, <- !pow2_Z by assumption.
  unfold Qlt, Qmult, inject_Z; simpl. lia.
Qed.

Lemma pow2_le_frac (a : Z) (b : positive) (c d : Z) :
  (0 <= c)%Z -> (0 <= d)%Z ->
  (2 ^ c * Z.pos b <= a * 2 ^ d)%Z -> pow2 (c - d) <= a # b.
Proof.
  intros Hc Hd H.
  apply (Qmult_le_r _ _ (pow2 d)); [apply pow2_pos|].
  rewrite pow2_sub, <- !pow2_Z by assumption.
  unfold Qle, Qmult, inject_Z; simpl. lia.
Qed.

Lemma ilog2_spec x : 0 < x -> pow2 (ilog2 x) <= x /\ x < pow2 (ilog2 x + 1).
Proof.
  destruct x as [a b]. intros Hx.
  assert (Ha : (0 < a)%Z) by (unfold Qlt in Hx; simpl in Hx; lia).
  unfold ilog2; simpl Qnum; simpl Qden.
  pose proof (Z.log2_spec a Ha) as [Ha1 Ha2].
  pose proof (Z.log2_spec (Z.pos b) (Pos2Z.is_pos b)) as [Hb1 Hb2].
  pose proof (Z.log2_nonneg a) as Hla.
  pose proof (Z.log2_nonneg (Z.pos b)) as Hlb.
  set (la := Z.log2 a) in *. set (lb := Z.log2 (Z.pos b)) in *.
  assert (Hup : a # b < pow2 (la - lb + 1)).
  { replace (la - lb + 1)%Z with ((la + 1) - lb)%Z by lia.
    apply frac_lt_pow2; [lia | lia |].
    replace (Z.succ la) with (la + 1)%Z in Ha2 by lia.
    assert (0 < 2 ^ lb)%Z by (apply Z.pow_pos_nonneg; lia). nia. }
  assert (Hlo : pow2 (la - lb - 1) <= a # b).
  { replace (la - lb - 1)%Z with (la - (lb + 1))%Z by lia.
    apply pow2_le_frac; [lia | lia |].
    replace (Z.succ lb) with (lb + 1)%Z in Hb2 by lia.
    assert (0 < 2 ^ la)%Z by (apply Z.pow_pos_nonneg; lia). nia. }
  destruct (Qle_bool (pow2 (la - lb)) (a # b)) eqn:E.
  - apply Qle_bool_iff in E. split; assumption.
  - split; [exact Hlo|].
    replace (la - lb - 1 + 1)%Z with (la - lb)%Z by lia.
    apply Qnot_le_lt. intros H. apply Qle_bool_iff in H. congruence.
Qed.

Lemma ilog2_unique x e : pow2 e <= x -> x < pow2 (e + 1) -> ilog2 x = e.
Proof.
  intros H1 H2.
  assert (Hx : 0 < x) by (eapply Qlt_le_trans; [apply pow2_pos | exact H1]).
  destruct (ilog2_spec x Hx) as [H3 H4].
  assert (ilog2 x < e + 1)%Z.
  { apply (Qpower_lt_compat_l_inv 2); [|reflexivity].
    eapply Qle_lt_trans; [exact H3 | exact H2]. }
  assert (e < ilog2 x + 1)%Z.
  { apply (Qpower_lt_compat_l_inv 2); [|reflexivity].
    eapply Qle_lt_trans; [exact H1 | exact H4]. }
  lia.
Qed.

#[global] Instance rne_comp : Proper (Qeq ==> eq) rne.
Proof.
  intros m m' H. unfold rne.
  rewrite (Qfloor_comp _ _ H).
  assert (E : m - inject_Z (Qfloor m') == m' - inject_Z (Qfloor m')) by (rewrite H; reflexivity).
  rewrite (Qcompare_comp _ _ E _ _ (Qeq_refl (1 # 2))). reflexivity.
Qed.

Lemma rne_floor m : (Qfloor m <= rne m <= Qfloor m + 1)%Z.
Proof. unfold rne. destruct (Qcompare _ _); [destruct (Z.even _)| |]; lia. Qed.

Lemma rne_Z n : rne (inject_Z n) = n.
Proof.
  unfold rne. rewrite Qfloor_Z.
  assert (E : inject_Z n - inject_Z n == 0) by ring.
  rewrite (Qcompare_comp _ _ E _ _ (Qeq_refl (1 # 2))). reflexivity.
Qed.

Lemma rne_mono m1 m2 : m1 <= m2 -> (rne m1 <= rne m2)%Z.
Proof.
  intros H.
  pose proof (Qfloor_resp_le _ _ H) as Hf.
  pose proof (rne_floor m1) as B1. pose proof (rne_floor m2) as B2.
  destruct (Z.eq_dec (Qfloor m1) (Qfloor m2)) as [E|NE]; [|lia].
  unfold rne in *. rewrite <- E in *.
  destruct (Qcompare_spec (m1 - inject_Z (Qfloor m1)) (1 # 2)) as [H1|H1|H1];
  destruct (Qcompare_spec (m2 - inject_Z (Qfloor m1)) (1 # 2)) as [H2|H2|H2];
    try lia; try (destruct (Z.even _); lia); exfalso; lra.
Qed.

Lemma rne_ge n m : inject_Z n <= m -> (n <= rne m)%Z.
Proof. intros H. rewrite <- (rne_Z n). apply rne_mono, H. Qed.

Lemma rne_le n m : m <= inject_Z n -> (rne m <= n)%Z.
Proof. intros H. rewrite <- (rne_Z n). apply rne_mono, H. Qed.

Lemma inject_Z_le a b : (a <= b)%Z -> inject_Z a <= inject_Z b.
Proof. intros H. rewrite <- Zle_Qle. exact H. Qed.

Lemma inject_Z_lt a b : (a < b)%Z -> inject_Z a < inject_Z b.
Proof. intros H. rewrite <- Zlt_Qlt. exact H. Qed.

Lemma rne_ge_pow2 n m : (0 <= n)%Z -> pow2 n <= m -> pow2 n <= inject_Z (rne m).
Proof.
  intros Hn H. rewrite <- (pow2_Z n Hn) in *. apply inject_Z_le, rne_ge, H.
Qed.

Lemma rne_le_pow2 n m : (0 <= n)%Z -> m <= pow2 n -> inject_Z (rne m) <= pow2 n.
Proof.
  intros Hn H. rewrite <- (pow2_Z n Hn) in *. apply inject_Z_le, rne_le, H.
Qed.

Lemma ilog2_comp x y : 0 < x -> x == y -> ilog2 x = ilog2 y.
Proof.
  intros Hx E. symmetry. destruct (ilog2_spec x Hx) as [H1 H2].
  apply ilog2_unique; rewrite <- E; assumption.
Qed.

Lemma round53_comp x y : 0 < x -> x == y -> round53 x = round53 y.
Proof.
  intros Hx E. unfold round53. apply Qred_complete.
  rewrite <- (ilog2_comp x y Hx E).
  assert (E' : x / pow2 (ilog2 x - 52) == y / pow2 (ilog2 x - 52))
    by (apply Qmult_comp; [exact E | reflexivity]).
  rewrite (rne_comp _ _ E'). reflexivity.
Qed.

(* the scaled significand of a positive number lies in [2^52, 2^53) *)
Lemma significand_range x :
  0 < x -> pow2 52 <= x / pow2 (ilog2 x - 52) /\ x / pow2 (ilog2 x - 52) < pow2 53.
Proof.
  intros Hx. destruct (ilog2_spec x Hx) as [H1 H2].
  pose proof (pow2_pos (ilog2 x - 52)) as Hp.
  split.
  - apply Qle_shift_div_l; [exact Hp|].
    rewrite <- pow2_add. replace (52 + (ilog2 x - 52))%Z with (ilog2 x) by lia. exact H1.
  - apply Qlt_shift_div_r; [exact Hp|].
    rewrite <- pow2_add. replace (53 + (ilog2 x - 52))%Z with (ilog2 x + 1)%Z by lia. exact H2.
Qed.

Lemma round53_range x :
  0 < x -> pow2 (ilog2 x) <= round53 x /\ round53 x <= pow2 (ilog2 x + 1).
Proof.
  intros Hx. destruct (significand_range x Hx) as [H1 H2].
  unfold round53. rewrite Qred_correct.
  pose proof (pow2_pos (ilog2 x - 52)) as Hp.
  set (e := (ilog2 x - 52)%Z) in *.
  split.
  - replace (ilog2 x) with (52 + e)%Z by (unfold e; lia).
    rewrite pow2_add. apply Qmult_le_compat_r; [|apply Qlt_le_weak, Hp].
    apply rne_ge_pow2; [lia | exact H1].
  - replace (ilog2 x + 1)%Z with (53 + e)%Z by (unfold e; lia).
    rewrite pow2_add. apply Qmult_le_compat_r; [|apply Qlt_le_weak, Hp].
    apply rne_le_pow2; [lia | apply Qlt_le_weak, H2].
Qed.

Lemma round53_mono x y : 0 < x -> x <= y -> round53 x <= round53 y.
Proof.
  intros Hx Hxy.
  assert (Hy : 0 < y) by (eapply Qlt_le_trans; eassumption).
  destruct (ilog2_spec x Hx) as [X1 X2]. destruct (ilog2_spec y Hy) as [Y1 Y2].
  assert (Hle : (ilog2 x <= ilog2 y)%Z).
  { assert (ilog2 x < ilog2 y + 1)%Z; [|lia].
    apply (Qpower_lt_compat_l_inv 2); [|reflexivity].
    eapply Qle_lt_trans; [exact X1|]. eapply Qle_lt_trans; [exact Hxy | exact Y2]. }
  destruct (Z.eq_dec (ilog2 x) (ilog2 y)) as [E|NE].
  - unfold round53. rewrite !Qred_correct, <- E.
    pose proof (pow2_pos (ilog2 x - 52)) as Hp.
    apply Qmult_le_compat_r; [|apply Qlt_le_weak, Hp].
    apply inject_Z_le, rne_mono.
    apply Qmult_le_compat_r; [exact Hxy|]. apply Qlt_le_weak, Qinv_lt_0_compat, Hp.
  - apply Qle_trans with (pow2 (ilog2 x + 1)); [apply round53_range, Hx|].
    apply Qle_trans with (pow2 (ilog2 y)); [apply pow2_le; lia | apply round53_range, Hy].
Qed.

Lemma round53_pos x : 0 < x -> 0 < round53 x.
Proof.
  intros Hx. eapply Qlt_le_trans; [apply (pow2_pos (ilog2 x)) | apply round53_range, Hx].
Qed.

Lemma RN_comp x y : x == y -> RN x = RN y.
Proof.
  intros E. unfold RN. rewrite <- (Qcompare_comp _ _ E _ _ (Qeq_refl 0)).
  destruct (Qcompare_spec x 0) as [H|H|H]; [reflexivity| |].
  - f_equal. apply round53_comp; [lra | rewrite E; reflexivity].
  - apply round53_comp; assumption.
Qed.

Lemma RN_mono x y : x <= y -> RN x <= RN y.
Proof.
  intros Hxy. unfold RN.
  destruct (Qcompare_spec x 0) as [Hx|Hx|Hx]; destruct (Qcompare_spec y 0) as [Hy|Hy|Hy];
    try lra.
  - apply Qlt_le_weak, round53_pos, Hy.
  - assert (0 < round53 (- x)) by (apply round53_pos; lra). lra.
  - assert (round53 (- y) <= round53 (- x)) by (apply round53_mono; lra). lra.
  - assert (0 < round53 (- x)) by (apply round53_pos; lra).
    assert (0 < round53 y) by (apply round53_pos; lra). lra.
  - apply round53_mono; assumption.
Qed.

Lemma RN_opp x : RN (- x) == - RN x.
Proof.
  unfold RN.
  destruct (Qcompare_spec x 0) as [Hx|Hx|Hx]; destruct (Qcompare_spec (- x) 0) as [Hy|Hy|Hy];
    try lra.
  rewrite (round53_comp (- - x) x); [reflexivity | lra | ring].
Qed.

(* numbers with at most 53 significant bits are left alone *)
Lemma RN_repr (m j : Z) :
  (Z.abs m < 2 ^ 53)%Z -> RN (inject_Z m * pow2 j) == inject_Z m * pow2 j.
Proof.
  assert (P : forall m, (0 < m < 2 ^ 53)%Z -> round53 (inject_Z m * pow2 j) == inject_Z m * pow2 j).
  { clear m. intros m [Hm1 Hm2].
    pose proof (Z.log2_spec m Hm1) as [L1 L2]. pose proof (Z.log2_nonneg m) as L0.
    assert (L3 : (Z.log2 m < 53)%Z) by (apply Z.log2_lt_pow2; lia).
    set (l := Z.log2 m) in *. replace (Z.succ l) with (l + 1)%Z in L2 by lia.
    assert (E : ilog2 (inject_Z m * pow2 j) = (l + j)%Z).
    { apply ilog2_unique.
      - rewrite pow2_add. apply Qmult_le_compat_r; [|apply Qlt_le_weak, pow2_pos].
        rewrite <- pow2_Z by lia. apply inject_Z_le. exact L1.
      - replace (l + j + 1)%Z with ((l + 1) + j)%Z by lia.
        rewrite pow2_add. apply Qmult_lt_compat_r; [apply pow2_pos|].
        rewrite <- pow2_Z by lia. apply inject_Z_lt. exact L2. }
    unfold round53. rewrite Qred_correct, E.
    assert (S : inject_Z m * pow2 j / pow2 (l + j - 52) == inject_Z (m * 2 ^ (52 - l))).
    { rewrite inject_Z_mult, pow2_Z by lia.
      pose proof (pow2_pos (l + j - 52)) as Hp.
      apply Qmult_inj_r with (pow2 (l + j - 52)); [lra|].
      rewrite <- Qmult_assoc, <- pow2_add.
      replace (52 - l + (l + j - 52))%Z with j by lia.
      field. lra. }
    rewrite (rne_comp _ _ S), rne_Z, inject_Z_mult, pow2_Z by lia.
    rewrite <- Qmult_assoc, <- pow2_add.
    replace (52 - l + (l + j - 52))%Z with j by lia. reflexivity. }
  intros Hm. unfold RN.
  pose proof (pow2_pos j) as Hp.
  destruct (Qcompare_spec (inject_Z m * pow2 j) 0) as [H|H|H].
  - rewrite H. reflexivity.
  - assert (Hneg : (m < 0)%Z).
    { destruct (Z_lt_le_dec m 0) as [?|Hge]; [assumption|exfalso].
      apply inject_Z_le in Hge. change (inject_Z 0) with 0 in Hge.
      assert (0 <= inject_Z m * pow2 j) by (apply Qmult_le_0_compat; lra). lra. }
    rewrite (round53_comp _ (inject_Z (- m) * pow2 j)).
    + rewrite P by lia. rewrite inject_Z_opp. ring.
    + lra.
    + rewrite inject_Z_opp. ring.
  - assert (Hpos : (0 < m)%Z).
    { destruct (Z_lt_le_dec 0 m) as [?|Hge]; [assumption|exfalso].
      apply inject_Z_le in Hge. change (inject_Z 0) with 0 in Hge.
      assert (inject_Z m * pow2 j <= 0 * pow2 j) by (apply Qmult_le_compat_r; lra). lra. }
    apply P. lia.
Qed.

Lemma RN_int z : (Z.abs z < 2 ^ 53)%Z -> RN (inject_Z z) == inject_Z z.
Proof.
  intros H.
  rewrite (RN_comp (inject_Z z) (inject_Z z * pow2 0)) by (change (pow2 0) with 1; ring).
  rewrite RN_repr by exact H. change (pow2 0) with 1. ring.
Qed.

Lemma RN_le_repr x m j :
  (Z.abs m < 2 ^ 53)%Z -> x <= inject_Z m * pow2 j -> RN x <= inject_Z m * pow2 j.
Proof. intros Hm H. rewrite <- (RN_repr m j Hm). apply RN_mono, H. Qed.

Lemma RN_ge_repr x m j :
  (Z.abs m < 2 ^ 53)%Z -> inject_Z m * pow2 j <= x -> inject_Z m * pow2 j <= RN x.
Proof. intros Hm H. rewrite <- (RN_repr m j Hm). apply RN_mono, H. Qed.

Lemma RN_le_int x z : (Z.abs z < 2 ^ 53)%Z -> x <= inject_Z z -> RN x <= inject_Z z.
Proof. intros Hz H. rewrite <- (RN_int z Hz). apply RN_mono, H. Qed.

Lemma RN_ge_int x z : (Z.abs z < 2 ^ 53)%Z -> inject_Z z <= x -> inject_Z z <= RN x.
Proof. intros Hz H. rewrite <- (RN_int z Hz). apply RN_mono, H. Qed.

Lemma RN_0 : RN 0 = 0.
Proof. reflexivity. Qed.

Lemma int_of_float64_nonneg k x :
  (0 <= k)%Z -> inject_Z k <= x -> x < inject_Z (k + 1) -> int_of_float64 x = k.
Proof.
  destruct x as [a b]. unfold int_of_float64, Qle, Qlt; simpl. intros Hk H1 H2.
  assert (0 <= a)%Z by nia.
  rewrite Z.quot_div_nonneg by lia.
  symmetry. apply (Z.div_unique a (Z.pos b) k (a - Z.pos b * k)); lia.
Qed.

Lemma int_of_float64_opp x : int_of_float64 (- x) = (- int_of_float64 x)%Z.
Proof. destruct x as [a b]. unfold int_of_float64; simpl. apply Z.quot_opp_l. lia. Qed.

Lemma int_of_float64_comp x y : x == y -> int_of_float64 x = int_of_float64 y.
Proof.
  assert (P : forall x y, 0 <= x -> x == y -> int_of_float64 x = int_of_float64 y).
  { clear. intros x y Hx E.
    set (k := Qfloor x).
    assert (Hk : (0 <= k)%Z) by (rewrite <- (Qfloor_Z 0); apply Qfloor_resp_le, Hx).
    pose proof (Qfloor_le x). pose proof (Qlt_floor x). fold k in H, H0.
    rewrite (int_of_float64_nonneg k x), (int_of_float64_nonneg k y); auto; rewrite <- E; auto. }
  intros E. destruct (Qlt_le_dec x 0) as [Hx|Hx]; [|apply P; assumption].
  assert (E' : - x == - y) by (rewrite E; reflexivity).
  apply (P (- x) (- y)) in E'; [|lra].
  rewrite !int_of_float64_opp in E'. lia.
Qed.
End Float64Facts.
Import Float64Facts.

(** ** The age in days of a duration *)

Lemma days_bounds_nonneg d :
  0 <= d <= 2 ^ 63 -> d mod Day <= Day - 2000 ->
  (inject_Z (d / Day) <= fdiv (Duration_Hours d) 24 /\ fdiv (Duration_Hours d) 24 < inject_Z (d / Day + 1))%Q.
Proof.
  intros Hd Hr.
  unfold Duration_Hours. rewrite Z.quot_div_nonneg, Z.rem_mod_nonneg by (unfold Hour, Minute, Second, Millisecond, Microsecond, Nanosecond; lia).
  set (h := d / Hour). set (n := d mod Hour). set (k := d / Day).
  assert (HH : Hour = 3600000000000) by reflexivity.
  assert (HD : Day = 24 * 3600000000000) by reflexivity.
  pose proof (Z.div_mod d Hour ltac:(rewrite HH; lia)) as E1.
  pose proof (Z.mod_pos_bound d Hour ltac:(rewrite HH; lia)) as B1.
  pose proof (Z.div_mod d Day ltac:(rewrite HD; lia)) as E2.
  pose proof (Z.mod_pos_bound d Day ltac:(rewrite HD; lia)) as B2.
  fold h n in E1, B1. fold k in E2. rewrite HH in E1, B1. rewrite HD in E2, B2, Hr.
  set (r := d mod (24 * 3600000000000)) in *.
  assert (Hk : 0 <= k <= 106752) by lia.
  assert (Hh : 24 * k <= h <= 24 * k + 23) by lia.
  assert (Hn : h = 24 * k + 23 -> n <= 3600000000000 - 2000) by lia.
  clearbody h n k r. clear E1 E2 Hr B2 HH HD Hd.
  unfold fadd, fdiv, float64_of_int.
  set (C := (60 * 60 * 1000000000)%Q).
  (* the integer parts convert exactly *)
  pose proof (RN_int h ltac:(lia)) as Fh.
  pose proof (RN_int n ltac:(lia)) as Fn.
  (* the fraction of an hour *)
  set (q := RN (RN (inject_Z n) / C)).
  assert (Eq : q = RN (inject_Z n / C)).
  { apply RN_comp. rewrite Fn. reflexivity. }
  assert (Hn0 : (0 <= inject_Z n)%Q) by (apply (inject_Z_le 0); lia).
  assert (Hn1 : (inject_Z n <= 3600000000000)%Q) by (apply (inject_Z_le n 3600000000000); lia).
  assert (Q0 : (0 <= q)%Q).
  { rewrite Eq. change 0%Q with (RN 0). apply RN_mono.
    apply Qle_shift_div_l; [reflexivity|]. lra. }
  assert (Q1 : (q <= 1)%Q).
  { rewrite Eq. change 1%Q with (RN 1). apply RN_mono.
    apply Qle_shift_div_r; [reflexivity|]. unfold C. lra. }
  set (c31 := (inject_Z (2 ^ 31 - 1) * pow2 (-31))%Q).
  assert (Q2 : h = 24 * k + 23 -> (q <= c31)%Q).
  { intros Hh'. specialize (Hn Hh'). rewrite Eq.
    apply RN_le_repr; [simpl; lia|].
    apply Qle_shift_div_r; [reflexivity|].
    apply (inject_Z_le n (3600000000000 - 2000)) in Hn.
    eapply Qle_trans; [exact Hn|]. vm_compute. discriminate. }
  (* the hours *)
  set (s := RN (RN (inject_Z h) + q)).
  assert (Es : s = RN (inject_Z h + q)).
  { apply RN_comp. rewrite Fh. reflexivity. }
  set (K := inject_Z k) in *.
  assert (HK : (0 <= K <= 106752)%Q).
  { split; [apply (inject_Z_le 0) | apply (inject_Z_le k 106752)]; lia. }
  assert (Hh1 : (24 * K <= inject_Z h)%Q).
  { unfold K. change 24%Q with (inject_Z 24). rewrite <- inject_Z_mult. apply inject_Z_le. lia. }
  assert (Hh2 : (inject_Z h <= 24 * K + 23)%Q).
  { unfold K. change 24%Q with (inject_Z 24). change 23%Q with (inject_Z 23).
    rewrite <- inject_Z_mult, <- inject_Z_plus. apply inject_Z_le. lia. }
  assert (P31 : (pow2 (-31) == 1 # 2147483648)%Q) by reflexivity.
  assert (P36 : (pow2 (-36) == 1 # 68719476736)%Q) by reflexivity.
  assert (S0 : (24 * K <= s)%Q).
  { rewrite Es.
    assert (E : (24 * K == inject_Z (24 * k))%Q) by (unfold K; rewrite inject_Z_mult; reflexivity).
    rewrite E. apply RN_ge_int; [lia|]. rewrite <- E. lra. }
  set (v := (inject_Z ((24 * k + 24) * 2 ^ 31 - 1) * pow2 (-31))%Q).
  assert (Ev : (v == 24 * K + 24 - (1 # 2147483648))%Q).
  { unfold v, K. rewrite P31.
    unfold Z.sub. rewrite inject_Z_plus, inject_Z_mult, inject_Z_plus, inject_Z_mult.
    change (inject_Z 24) with 24%Q. change (inject_Z (2 ^ 31)) with 2147483648%Q.
    change (inject_Z (- (1))) with (-1)%Q. lra. }
  assert (S1 : (s <= v)%Q).
  { rewrite Es. unfold v. apply RN_le_repr; [lia|].
    fold v. rewrite Ev.
    destruct (Z.eq_dec h (24 * k + 23)) as [Hh'|Hh'].
    - specialize (Q2 Hh'). unfold c31 in Q2. rewrite P31 in Q2.
      change (inject_Z (2 ^ 31 - 1)) with 2147483647%Q in Q2. lra.
    - assert (inject_Z h <= 24 * K + 22)%Q.
      { unfold K. change 24%Q with (inject_Z 24). change 22%Q with (inject_Z 22).
        rewrite <- inject_Z_mult, <- inject_Z_plus. apply inject_Z_le. lia. }
      lra. }
  (* the days *)
  split.
  - apply RN_ge_int; [lia|]. fold K.
    apply Qle_shift_div_l; [reflexivity|]. lra.
  - set (u := (inject_Z ((k + 1) * 2 ^ 36 - 1) * pow2 (-36))%Q).
    assert (Eu : (u == K + 1 - (1 # 68719476736))%Q).
    { unfold u, K. rewrite P36.
      unfold Z.sub. rewrite inject_Z_plus, inject_Z_mult, inject_Z_plus.
      change (inject_Z 1) with 1%Q. change (inject_Z (2 ^ 36)) with 68719476736%Q.
      change (inject_Z (- (1))) with (-1)%Q. lra. }
    apply Qle_lt_trans with u.
    + unfold u. apply RN_le_repr; [lia|].
      fold u. rewrite Eu.
      apply Qle_shift_div_r; [reflexivity|]. lra.
    + rewrite Eu, inject_Z_plus. fold K. change (inject_Z 1) with 1%Q. lra.
Qed.

Lemma RN_opp_eq x y : (x == - y)%Q -> (RN x == - RN y)%Q.
Proof. intros E. rewrite (RN_comp _ _ E). apply RN_opp. Qed.

Lemma Duration_Hours_opp (d : Duration) : (Duration_Hours (- d)%Z == - Duration_Hours d)%Q.
Proof.
  unfold Duration_Hours, fadd, fdiv, float64_of_int.
  rewrite Z.quot_opp_l, Z.rem_opp_l by discriminate.
  apply RN_opp_eq.
  rewrite (RN_opp_eq (inject_Z (- Z.quot d Hour)%Z) (inject_Z (Z.quot d Hour)))
    by (rewrite inject_Z_opp; reflexivity).
  rewrite (RN_opp_eq (RN (inject_Z (- Z.rem d Hour)%Z) / (60 * 60 * 1000000000))%Q
                     (RN (inject_Z (Z.rem d Hour)) / (60 * 60 * 1000000000))%Q).
  - ring.
  - rewrite (RN_opp_eq (inject_Z (- Z.rem d Hour)%Z) (inject_Z (Z.rem d Hour)))
      by (rewrite inject_Z_opp; reflexivity).
    field.
Qed.

Lemma days_quot d :
  minDuration <= d <= maxDuration -> Z.abs (Z.rem d Day) <= Day - 2000 ->
  int_of_float64 (fdiv (Duration_Hours d) 24) = Z.quot d Day.
Proof.
  unfold minDuration, maxDuration. intros Hd Hr.
  assert (HD : Day = 86400000000000) by reflexivity.
  destruct (Z_le_gt_dec 0 d) as [Hpos|Hneg].
  - rewrite Z.rem_mod_nonneg in Hr by lia.
    rewrite Z.quot_div_nonneg by lia.
    destruct (days_bounds_nonneg d) as [B1 B2]; [lia | lia |].
    apply int_of_float64_nonneg; [apply Z.div_pos; lia | exact B1 | exact B2].
  - replace d with (- - d) by lia.
    assert (Hr' : (- d) mod Day <= Day - 2000).
    { rewrite <- Z.rem_mod_nonneg by lia. rewrite Z.rem_opp_l by lia. lia. }
    destruct (days_bounds_nonneg (- d)) as [B1 B2]; [lia | exact Hr' |].
    rewrite (Z.quot_opp_l (- d)) by lia. rewrite Z.quot_div_nonneg by lia.
    rewrite (int_of_float64_comp _ (- fdiv (Duration_Hours (- d)) 24)).
    + rewrite int_of_float64_opp. f_equal.
      apply int_of_float64_nonneg; [apply Z.div_pos; lia | exact B1 | exact B2].
    + unfold fdiv. apply RN_opp_eq. rewrite Duration_Hours_opp. field.
Qed.

(** The model of [float64] gives the numbers that the machine gives. *)
Example days_as_on_the_machine :
  forallb (fun d => match binary64_value (binary64_days d) with
                   | Some q => Qeq_bool q (fdiv (Duration_Hours d) 24)
                   | None => false
                   end)
    [0; 1; -1; 10 * Day; 1000 * Day - 1; 1000 * Day - 2000; 240000 * Hour - 1;
     - (12 * Hour); - (1000 * Day) + 1; 123456789012345678; -987654321098765432;
     maxDuration; minDuration] = true.
Proof. vm_compute. reflexivity. Qed.

(** ** Parsing of time stamps *)

Example time_Parse_samples :
  time_Parse "2024-01-01T00:00:00.000Z" = inl (1704067200 * Second) /\
  time_Parse "2024-02-29T23:59:59.999Z" = inl (1709251199 * Second + 999 * Millisecond) /\
  time_Parse "1970-01-01T00:00:00.000Z" = inl 0 /\
  time_Parse "2023-02-29T00:00:00.000Z" =
    inr ("parsing time " +:+ quote "2023-02-29T00:00:00.000Z" +:+ ": day out of range") /\
  time_Parse "2019-03-07" =
    inr ("parsing time " +:+ quote "2019-03-07" +:+ " as " +:+ quote layout +:+
         ": cannot parse " +:+ quote "" +:+ " as " +:+ quote "T").
Proof. vm_compute. repeat split. Qed.

(** What is not a printable ASCII byte is escaped in the value that an error
    quotes: here a tab, a double quote, a backslash and the two bytes of a
    letter with an accent. *)
Example quote_samples :
  quote "2019-03-07" = dquote +:+ "2019-03-07" +:+ dquote /\
  quote (String "009" (String "034" (String backslash "~")))
    = dquote +:+ String backslash "x09" +:+ String backslash dquote
      +:+ String backslash (String backslash "~") +:+ dquote /\
  quote (String "195" (String "169" ""))
    = dquote +:+ String backslash "xc3" +:+ String backslash "xa9" +:+ dquote /\
  time_Parse (String "034" "2019") =
    inr ("parsing time " +:+ dquote +:+ String backslash dquote +:+ "2019" +:+ dquote
         +:+ " as " +:+ quote layout +:+ ": cannot parse "
         +:+ dquote +:+ String backslash dquote +:+ "2019" +:+ dquote
         +:+ " as " +:+ quote "2006").
Proof. vm_compute. repeat split. Qed.

(** ** The resolver [amiCreation] *)

Section Resolver.
Variable env : Env.

Lemma amiCreation_hit svc id w cached :
  cache w !! id = Some cached -> amiCreation env svc id w = ((cached, None), w).
Proof. intros H. unfold amiCreation. rewrite H. reflexivity. Qed.

(** What a cache miss does, by the answer of the service. *)
Lemma amiCreation_miss svc id w :
  cache w !! id = None ->
  let input := {| ImageIds := [id] |} in
  let out := ec2_DescribeImages env (trace w) svc input in
  let w1 := record (EvDescribeImages svc input out) w in
  amiCreation env svc id w =
    match out with
    | inr err => (("", Some ("error getting image info: " +:+ err)), w1)
    | inl result =>
        match Images result with
        | image :: _ =>
            ((CreationDate image, None),
             set_cache (<[id := CreationDate image]> (cache w)) w1)
        | [] => (("", Some ("no date for " +:+ id)), w1)
        end
    end.
Proof.
  intros H. unfold amiCreation, DescribeImages. rewrite H. cbn.
  destruct (ec2_DescribeImages env (trace w) svc _) as [result|err]; [|reflexivity].
  destruct (Images result); reflexivity.
Qed.

Lemma amiCreation_stdout svc id w :
  stdout (snd (amiCreation env svc id w)) = stdout w.
Proof.
  destruct (cache w !! id) as [cached|] eqn:E.
  - rewrite (amiCreation_hit _ _ _ _ E). reflexivity.
  - rewrite (amiCreation_miss _ _ _ E). cbn.
    destruct (ec2_DescribeImages env (trace w) svc _) as [result|err]; [|reflexivity].
    destruct (Images result); reflexivity.
Qed.

(** After a resolution that succeeded the identifier is in the cache. *)
Lemma amiCreation_cached svc id w date w1 :
  amiCreation env svc id w = ((date, None), w1) -> cache w1 !! id = Some date.
Proof.
  destruct (cache w !! id) as [cached|] eqn:E.
  - rewrite (amiCreation_hit _ _ _ _ E). intros [= <- <-]. exact E.
  - rewrite (amiCreation_miss _ _ _ E). cbn.
    destruct (ec2_DescribeImages env (trace w) svc _) as [result|err]; [|discriminate].
    destruct (Images result); [discriminate|].
    intros [= <- <-]. cbn. apply lookup_insert_eq.
Qed.

Lemma amiCreation_failure svc id w s err w1 :
  amiCreation env svc id w = ((s, Some err), w1) ->
  cache w1 = cache w /\ stdout w1 = stdout w /\
  (err = "no date for " +:+ id \/ exists cause, err = "error getting image info: " +:+ cause).
Proof.
  destruct (cache w !! id) as [cached|] eqn:E.
  - rewrite (amiCreation_hit _ _ _ _ E). discriminate.
  - rewrite (amiCreation_miss _ _ _ E). cbn.
    destruct (ec2_DescribeImages env (trace w) svc _) as [result|cause].
    + destruct (Images result); [|discriminate].
      intros [= <- <- <-]. auto.
    + intros [= <- <- <-]. eauto.
Qed.
End Resolver.

(** ** One instance, and the loops of [Sync] *)

Section SyncLoop.
Variable env : Env.

Lemma syncInstance_unfold svc acct instance w :
  syncInstance env svc acct instance w =
    match amiCreation env svc (ImageId instance) w with
    | ((_, Some err), w1) =>
        (Some ("failed to get creation date of " +:+ ImageId instance +:+ ": " +:+ err), w1)
    | ((create, None), w1) =>
        match time_Parse create with
        | inr err =>
            (Some ("failed to parse time string " +:+ create +:+ ": " +:+ err), w1)
        | inl t =>
            let now := time_Now env (trace w1) in
            (None, fmt_Printf (line acct instance (ageAt now t)) (record (EvNow now) w1))
        end
    end.
Proof.
  unfold syncInstance.
  destruct (amiCreation env svc (ImageId instance) w) as [[create [err|]] w1];
    [reflexivity|].
  destruct (time_Parse create); reflexivity.
Qed.

Lemma syncInstance_success svc acct instance w w' :
  syncInstance env svc acct instance w = (None, w') ->
  exists create w1 t,
    amiCreation env svc (ImageId instance) w = ((create, None), w1) /\
    time_Parse create = inl t /\
    w' = fmt_Printf (line acct instance (ageAt (time_Now env (trace w1)) t))
                    (record (EvNow (time_Now env (trace w1))) w1).
Proof.
  rewrite syncInstance_unfold.
  destruct (amiCreation env svc (ImageId instance) w) as [[create [err|]] w1] eqn:E;
    [discriminate|].
  destruct (time_Parse create) as [t|err] eqn:P; [|discriminate].
  cbn. intros [= <-]. exists create, w1, t. auto.
Qed.

Lemma syncInstance_success_stdout svc acct instance w w' :
  syncInstance env svc acct instance w = (None, w') ->
  exists days, stdout w' = stdout w ++ [line acct instance days].
Proof.
  intros H. destruct (syncInstance_success _ _ _ _ _ H) as (create & w1 & t & E & _ & ->).
  eexists. cbn. f_equal.
  rewrite <- (amiCreation_stdout env svc (ImageId instance) w), E. reflexivity.
Qed.

Lemma syncInstance_withState svc acct instance state w :
  syncInstance env svc acct (withState instance state) w
    = syncInstance env svc acct instance w.
Proof. reflexivity. Qed.

(** A failure of the image makes the body of the loop return its error,
    after the lookup if there is one, and without a line. *)
Lemma syncInstance_fails svc acct instance w f :
  failure env svc w instance f ->
  exists w',
    syncInstance env svc acct instance w = (Some (failureText instance f), w') /\
    stdout w' = stdout w /\
    trace w' = trace w ++ lookupOf env svc w instance /\
    match f with
    | Unparsable create _ => cache w' !! ImageId instance = Some create
    | _ => cache w' = cache w
    end.
Proof.
  rewrite syncInstance_unfold. unfold lookupOf, imageRequest.
  destruct f as [cause| |create e]; cbn [failure failureText]; unfold obtains, imageRequest.
  - intros [Hmiss Hans]. rewrite (amiCreation_miss env svc _ w Hmiss). cbn.
    rewrite Hans, Hmiss. eexists. repeat split.
  - intros [Hmiss (out & Hans & Hnone)]. rewrite (amiCreation_miss env svc _ w Hmiss). cbn.
    rewrite Hans, Hnone, Hmiss. eexists. repeat split.
  - intros [Hget Hparse]. destruct (cache w !! ImageId instance) as [cached|] eqn:Hc.
    + subst cached. rewrite (amiCreation_hit env svc _ w _ Hc), Hparse.
      eexists. repeat split; [symmetry; apply app_nil_r | exact Hc].
    + destruct Hget as (out & image & images & Hans & Himages & ->).
      rewrite (amiCreation_miss env svc _ w Hc). cbn.
      rewrite Hans, Himages, Hparse. eexists. repeat split. cbn. apply lookup_insert_eq.
Qed.

(** The body of the loop returns an error only for a failure of the image. *)
Lemma syncInstance_failed svc acct instance w err w' :
  syncInstance env svc acct instance w = (Some err, w') ->
  exists f, failure env svc w instance f /\ err = failureText instance f.
Proof.
  rewrite syncInstance_unfold.
  destruct (cache w !! ImageId instance) as [cached|] eqn:Hc.
  - rewrite (amiCreation_hit env svc _ w _ Hc).
    destruct (time_Parse cached) as [t|e] eqn:Hparse; [discriminate|].
    intros [= <- <-]. exists (Unparsable cached e). cbn. unfold obtains.
    rewrite Hc. auto.
  - rewrite (amiCreation_miss env svc _ w Hc). cbn.
    destruct (ec2_DescribeImages env (trace w) svc _) as [out|cause] eqn:Hans.
    + destruct (Images out) as [|image images] eqn:Himages.
      * intros [= <- <-]. exists NotFound. cbn. eauto.
      * destruct (time_Parse (CreationDate image)) as [t|e] eqn:Hparse; [discriminate|].
        intros [= <- <-]. exists (Unparsable (CreationDate image) e). cbn.
        unfold obtains. rewrite Hc. split; [|reflexivity].
        split; [|exact Hparse]. exists out, image, images. auto.
    + intros [= <- <-]. exists (Refused cause). cbn. auto.
Qed.

(** An image that cannot fail gives a line, and no image that could not
    fail before can fail afterwards. *)
Lemma syncInstance_resolves svc acct instance w :
  resolves env svc w instance ->
  exists days w',
    syncInstance env svc acct instance w = (None, w') /\
    stdout w' = stdout w ++ [line acct instance days] /\
    forall other, resolves env svc w other -> resolves env svc w' other.
Proof.
  unfold resolves at 1. rewrite syncInstance_unfold.
  destruct (cache w !! ImageId instance) as [cached|] eqn:Hc.
  - intros [t Hparse]. rewrite (amiCreation_hit env svc _ w _ Hc), Hparse.
    eexists _, _. split; [reflexivity|]. split; [reflexivity|].
    intros other H. exact H.
  - intros Hans. destruct (Hans (trace w)) as (out & image & images & t & Hout & Himages & Hparse).
    rewrite (amiCreation_miss env svc _ w Hc). cbn. unfold imageRequest in Hout.
    rewrite Hout, Himages, Hparse.
    eexists _, _. split; [reflexivity|]. split; [reflexivity|].
    intros other. unfold resolves. cbn.
    destruct (decide (ImageId other = ImageId instance)) as [E|E].
    + rewrite E, lookup_insert_eq. eauto.
    + rewrite lookup_insert_ne by congruence. auto.
Qed.

Lemma forRange_app {A : Type} (body : A -> World -> error * World) l1 l2 w :
  forRange body (l1 ++ l2) w =
    match forRange body l1 w with
    | (Some err, w') => (Some err, w')
    | (None, w') => forRange body l2 w'
    end.
Proof.
  revert w. induction l1 as [|x l1 IH]; intros w; cbn; [reflexivity|].
  destruct (body x w) as [[err|] w']; [reflexivity | apply IH].
Qed.

(** The two nested loops visit the instances of the answer in order. *)
Lemma forRange_concat {A B : Type} (f : A -> list B)
    (body : B -> World -> error * World) l w :
  forRange (fun x => forRange body (f x)) l w = forRange body (concat (map f l)) w.
Proof.
  revert w. induction l as [|x l IH]; intros w; cbn; [reflexivity|].
  rewrite forRange_app.
  destruct (forRange body (f x) w) as [[err|] w']; [reflexivity | apply IH].
Qed.

Lemma forRange_withState svc acct (restate : Instance -> string) l w :
  forRange (syncInstance env svc acct)
           (map (fun instance => withState instance (restate instance)) l) w
    = forRange (syncInstance env svc acct) l w.
Proof.
  revert w. induction l as [|instance l IH]; intros w; cbn [map forRange]; [reflexivity|].
  rewrite syncInstance_withState.
  destruct (syncInstance env svc acct instance w) as [[err|] w']; [reflexivity | apply IH].
Qed.

(** A loop that came to its end has printed one line for each instance. *)
Lemma syncInstances_printed svc acct l w w' :
  forRange (syncInstance env svc acct) l w = (None, w') ->
  exists ages,
    length ages = length l /\ stdout w' = stdout w ++ zip_with (line acct) l ages.
Proof.
  revert w. induction l as [|instance l IH]; intros w; cbn [forRange].
  - intros [= <-]. exists []. cbn. rewrite app_nil_r. auto.
  - destruct (syncInstance env svc acct instance w) as [[err|] w1] eqn:E; [discriminate|].
    intros H. destruct (syncInstance_success_stdout _ _ _ _ _ E) as [days Hout].
    destruct (IH _ H) as (ages & Hlen & Hstd).
    exists (days :: ages). cbn. rewrite Hstd, Hout, <- app_assoc. auto.
Qed.

(** What the loop over the instances does: it prints a line for each
    instance up to the first one whose image fails, and returns the error
    of that one. *)
Lemma syncInstances_output svc acct l w :
  exists printed rest w1,
    l = printed ++ rest /\
    forRange (syncInstance env svc acct) printed w = (None, w1) /\
    stdout (snd (forRange (syncInstance env svc acct) l w)) = stdout w1 /\
    match rest with
    | [] => fst (forRange (syncInstance env svc acct) l w) = None
    | failing :: _ =>
        exists f,
          failure env svc w1 failing f /\
          fst (forRange (syncInstance env svc acct) l w) = Some (failureText failing f)
    end.
Proof.
  revert w. induction l as [|instance l IH]; intros w; cbn [forRange].
  - exists [], [], w. auto.
  - destruct (syncInstance env svc acct instance w) as [[err|] w'] eqn:E.
    + destruct (syncInstance_failed _ _ _ _ _ _ E) as (f & Hf & ->).
      destruct (syncInstance_fails svc acct instance w f Hf) as (w2 & E2 & Hout & _).
      rewrite E in E2. injection E2 as <-.
      exists [], (instance :: l), w. cbn. repeat split; eauto.
    + destruct (IH w') as (printed & rest & w1 & -> & Hrun & Hout & Hrest).
      exists (instance :: printed), rest, w1. cbn [forRange app]. rewrite E.
      auto.
Qed.

(** When no image can fail the loop comes to its end. *)
Lemma syncInstances_resolve svc acct l w :
  Forall (resolves env svc w) l ->
  exists w', forRange (syncInstance env svc acct) l w = (None, w').
Proof.
  revert w. induction l as [|instance l IH]; intros w H; cbn [forRange]; [eauto|].
  inversion H as [|? ? Hi Hl]; subst.
  destruct (syncInstance_resolves svc acct instance w Hi) as (days & w' & -> & _ & Hkeep).
  apply IH. eapply Forall_impl; [exact Hl | exact Hkeep].
Qed.

Lemma Sync_unfold svc acct w :
  let out := ec2_DescribeInstances env (trace w) svc params in
  let w1 := record (EvDescribeInstances svc params out) w in
  Sync env svc acct w =
    match out with
    | inr err => (Some ("DescribeInstances failed: " +:+ err), w1)
    | inl result => forRange (syncInstance env svc acct) (allInstances result) w1
    end.
Proof.
  cbn. unfold Sync, DescribeInstances. fold params.
  destruct (ec2_DescribeInstances env (trace w) svc params) as [result|err];
    [|reflexivity].
  apply forRange_concat.
Qed.

End SyncLoop.

(** ** The cache *)

(** C4. An identifier that is a key of the cache is resolved to the cached
    value without any call: the world, and with it the history of calls, is
    left as it was.  Hence after a resolution that returned a time stamp,
    resolving the same identifier again, with any client, returns the same
    time stamp and makes no call. *)
Theorem amiCreation_cache_hit env svc id w :
  (forall cached,
      cache w !! id = Some cached ->
      amiCreation env svc id w = ((cached, None), w)) /\
  (forall date w1,
      amiCreation env svc id w = ((date, None), w1) ->
      forall svc',
        amiCreation env svc' id w1 = ((date, None), w1) /\
        trace (snd (amiCreation env svc' id w1)) = trace w1).
Proof.
  split.
  - intros cached H. apply amiCreation_hit, H.
  - intros date w1 H svc'.
    apply amiCreation_cached in H.
    rewrite (amiCreation_hit env svc' id w1 date H). auto.
Qed.

Lemma amiCreation_cache_hit_witness :
  amiCreation goodEnv defaultClient "ami-1"
    (set_cache {[ "ami-1" := "2024-01-01T00:00:00.000Z" ]} initial)
  = (("2024-01-01T00:00:00.000Z", None),
     set_cache {[ "ami-1" := "2024-01-01T00:00:00.000Z" ]} initial) /\
  (forall w1,
      amiCreation goodEnv defaultClient "ami-1" initial = ((sampleDate, None), w1) ->
      amiCreation goodEnv (roleClient sampleRole) "ami-1" w1 = ((sampleDate, None), w1)).
Proof.
  split.
  - apply (proj1 (amiCreation_cache_hit goodEnv defaultClient "ami-1"
                    (set_cache {[ "ami-1" := "2024-01-01T00:00:00.000Z" ]} initial))).
    reflexivity.
  - intros w1 H.
    apply (proj2 (amiCreation_cache_hit goodEnv defaultClient "ami-1" initial)
             sampleDate w1 H (roleClient sampleRole)).
Defined.

(** C5. The cache after a resolution, case by case: a hit leaves it as it
    was; on a miss, an error of the call and an answer without an image both
    give an error (the latter one names the identifier) and leave the cache
    as it was; only an answer with an image adds an entry, the creation date
    of the first image. *)
Theorem amiCreation_cache_after env svc id w :
  let out := ec2_DescribeImages env (trace w) svc {| ImageIds := [id] |} in
  let r := amiCreation env svc id w in
  match cache w !! id with
  | Some cached => fst r = (cached, None) /\ cache (snd r) = cache w
  | None =>
      match out with
      | inr cause =>
          fst r = ("", Some ("error getting image info: " +:+ cause)) /\
          cache (snd r) = cache w
      | inl result =>
          match Images result with
          | [] =>
              fst r = ("", Some ("no date for " +:+ id)) /\ cache (snd r) = cache w
          | image :: _ =>
              fst r = (CreationDate image, None) /\
              cache (snd r) = <[id := CreationDate image]> (cache w)
          end
      end
  end.
Proof.
  cbn. destruct (cache w !! id) as [cached|] eqn:E.
  - rewrite (amiCreation_hit _ _ _ _ _ E). auto.
  - rewrite (amiCreation_miss _ _ _ _ E). cbn.
    destruct (ec2_DescribeImages env (trace w) svc _) as [result|cause]; [|auto].
    destruct (Images result); auto.
Qed.

(** ** The display name *)

Section DisplayName.
Let step (name : string) (tag : Tag) : string :=
  if String.eqb (Key tag) "Name" then Value tag else name.

Lemma name_unnamed tags name :
  Forall (fun tag => Key tag <> "Name") tags -> fold_left step tags name = name.
Proof.
  intros H. revert name. induction H as [|tag tags Hk _ IH]; intros name; cbn; [reflexivity|].
  rewrite IH. unfold step. apply String.eqb_neq in Hk. rewrite Hk. reflexivity.
Qed.

Lemma name_last before tag after name :
  Key tag = "Name" -> Forall (fun tag => Key tag <> "Name") after ->
  fold_left step (before ++ tag :: after) name = Value tag.
Proof.
  intros Hk Hafter. rewrite fold_left_app. cbn.
  rewrite name_unnamed by exact Hafter.
  unfold step at 1. rewrite Hk. reflexivity.
Qed.
End DisplayName.

(** C8. The display name starts as the instance identifier and is
    overwritten by each tag whose key is [Name], in the order of the tags
    (a further tag at the end overwrites the name when its key is [Name] and
    leaves it otherwise): without such a tag it is the instance identifier,
    otherwise it is the value of the last such tag; and it is the third
    field of the line that is printed for the instance. *)
Theorem tagName_last_wins instance :
  (forall id ami state tags tag,
     tagName (sampleInstance id ami state []) = id /\
     tagName (sampleInstance id ami state (tags ++ [tag]))
       = if String.eqb (Key tag) "Name" then Value tag
         else tagName (sampleInstance id ami state tags)) /\
  (Forall (fun tag => Key tag <> "Name") (Tags instance) ->
     tagName instance = InstanceId instance) /\
  (forall before tag after,
     Tags instance = before ++ tag :: after ->
     Key tag = "Name" -> Forall (fun tag => Key tag <> "Name") after ->
     tagName instance = Value tag) /\
  (forall env svc acct w w',
     syncInstance env svc acct instance w = (None, w') ->
     exists create,
       stdout w' = stdout w ++
         [acct +:+ " " +:+ InstanceId instance +:+ " " +:+ tagName instance +:+ " "
          +:+ ImageId instance +:+ " " +:+ create +:+ newline]).
Proof.
  split; [|split; [|split]].
  - intros id ami state tags tag. split; [reflexivity|].
    unfold tagName. cbn. rewrite fold_left_app. reflexivity.
  - intros H. unfold tagName. apply name_unnamed, H.
  - intros before tag after E Hk Hafter. unfold tagName. rewrite E.
    apply name_last; assumption.
  - intros env svc acct w w' H.
    destruct (syncInstance_success_stdout _ _ _ _ _ _ H) as [days Hout].
    exists (fmt_d days +:+ " days"). exact Hout.
Qed.

Lemma tagName_last_wins_witness :
  tagName (sampleInstance "i-1" "ami-1" "running" []) = "i-1" /\
  tagName (sampleInstance "i-1" "ami-1" "running"
             [ {| Key := "Name"; Value := "web" |}; {| Key := "env"; Value := "prod" |};
               {| Key := "Name"; Value := "db" |}; {| Key := "team"; Value := "ops" |} ])
    = "db".
Proof.
  split.
  - apply (proj1 (proj2 (tagName_last_wins (sampleInstance "i-1" "ami-1" "running" [])))).
    constructor.
  - apply (proj1 (proj2 (proj2 (tagName_last_wins _)))
             [ {| Key := "Name"; Value := "web" |}; {| Key := "env"; Value := "prod" |} ]
             {| Key := "Name"; Value := "db" |}
             [ {| Key := "team"; Value := "ops" |} ]).
    + reflexivity.
    + reflexivity.
    + repeat constructor. discriminate.
Defined.

(** ** The history and the output only grow *)

Section Growth.
Variable env : Env.

Lemma grows_refl w : grows w w.
Proof. split; reflexivity. Qed.

Lemma grows_trans w1 w2 w3 : grows w1 w2 -> grows w2 w3 -> grows w1 w3.
Proof. intros [A B] [C D]. split; etrans; eassumption. Qed.

Lemma grows_record e w : grows w (record e w).
Proof. split; [apply prefix_app_r; reflexivity | reflexivity]. Qed.

Lemma grows_Printf s w : grows w (fmt_Printf s w).
Proof. split; [reflexivity | apply prefix_app_r; reflexivity]. Qed.

Lemma grows_set_cache c w : grows w (set_cache c w).
Proof. split; reflexivity. Qed.

Lemma amiCreation_grows svc id w : grows w (snd (amiCreation env svc id w)).
Proof.
  destruct (cache w !! id) as [cached|] eqn:E.
  - rewrite (amiCreation_hit _ _ _ _ _ E). apply grows_refl.
  - rewrite (amiCreation_miss _ _ _ _ E). cbn.
    destruct (ec2_DescribeImages env (trace w) svc _) as [result|cause];
      [|apply grows_record].
    destruct (Images result); cbn; [apply grows_record|].
    eapply grows_trans; [apply grows_record | apply grows_set_cache].
Qed.

Lemma syncInstance_grows svc acct instance w :
  grows w (snd (syncInstance env svc acct instance w)).
Proof.
  rewrite syncInstance_unfold.
  pose proof (amiCreation_grows svc (ImageId instance) w) as G.
  destruct (amiCreation env svc (ImageId instance) w) as [[create [e|]] w1]; [exact G|].
  destruct (time_Parse create) as [t|e]; [|exact G]. cbn.
  eapply grows_trans; [exact G|].
  eapply grows_trans; [apply grows_record | apply grows_Printf].
Qed.

Lemma forRange_grows {A : Type} (body : A -> World -> error * World) l w :
  (forall x w, grows w (snd (body x w))) -> grows w (snd (forRange body l w)).
Proof.
  intros Hbody. revert w. induction l as [|x l IH]; intros w; cbn; [apply grows_refl|].
  specialize (Hbody x w).
  destruct (body x w) as [[err|] w']; [exact Hbody|].
  eapply grows_trans; [exact Hbody | apply IH].
Qed.

(** [Sync] starts with the request for the running and pending instances. *)
Lemma Sync_trace svc acct w :
  exists more,
    trace (snd (Sync env svc acct w))
      = trace w ++
        EvDescribeInstances svc params (ec2_DescribeInstances env (trace w) svc params)
        :: more.
Proof.
  rewrite Sync_unfold. cbn.
  destruct (ec2_DescribeInstances env (trace w) svc params) as [result|err] eqn:E.
  - destruct (forRange_grows (syncInstance env svc acct) (allInstances result)
                (record (EvDescribeInstances svc params (inl result)) w)
                (syncInstance_grows svc acct)) as [[more Hmore] _].
    exists more. rewrite Hmore. cbn. rewrite <- app_assoc. reflexivity.
  - exists []. reflexivity.
Qed.

Lemma Sync_grows svc acct w : grows w (snd (Sync env svc acct w)).
Proof.
  rewrite Sync_unfold. cbn.
  destruct (ec2_DescribeInstances env (trace w) svc params) as [result|err];
    [|apply grows_record].
  eapply grows_trans; [apply grows_record|].
  apply forRange_grows, syncInstance_grows.
Qed.
End Growth.

(** ** Which instances are printed *)

(** C1, as the code has it.  [Sync] asks the service for the instances whose
    [instance-state-name] is [running] or [pending], and then goes through
    all the instances of the answer without looking at their state: the
    loop does the same when the states are replaced by any others.  It
    prints one line for each instance, in the order of the answer, up to
    the first instance whose image fails, and returns the error of that
    image; it returns no error exactly when there is a line for every
    instance.  In particular, when no image can fail, every instance of the
    answer has its line, whatever its state is.  So the lines are those of
    running or pending instances when the answer has only such instances,
    as the filter asks; the program itself excludes nothing. *)
Theorem Sync_prints_the_filtered_answer env svc acct w result :
  ec2_DescribeInstances env (trace w) svc params = inl result ->
  Filters params
    = [ {| Name := "instance-state-name"; Values := ["running"; "pending"] |} ] /\
  (exists more,
      trace (snd (Sync env svc acct w))
        = trace w ++ EvDescribeInstances svc params (inl result) :: more) /\
  (forall restate : Instance -> string,
      forRange (syncInstance env svc acct)
        (map (fun instance => withState instance (restate instance))
             (allInstances result))
        (record (EvDescribeInstances svc params (inl result)) w)
      = Sync env svc acct w) /\
  (exists printed rest ages,
      allInstances result = printed ++ rest /\
      length ages = length printed /\
      stdout (snd (Sync env svc acct w)) = stdout w ++ zip_with (line acct) printed ages /\
      (Forall runningOrPending (allInstances result) -> Forall runningOrPending printed) /\
      match rest with
      | [] => fst (Sync env svc acct w) = None
      | failing :: _ =>
          exists f,
            failure env svc
              (snd (forRange (syncInstance env svc acct) printed
                      (record (EvDescribeInstances svc params (inl result)) w)))
              failing f /\
            fst (Sync env svc acct w) = Some (failureText failing f)
      end) /\
  (Forall (resolves env svc w) (allInstances result) ->
   fst (Sync env svc acct w) = None /\
   exists ages,
     length ages = length (allInstances result) /\
     stdout (snd (Sync env svc acct w))
       = stdout w ++ zip_with (line acct) (allInstances result) ages).
Proof.
  intros Hout.
  pose proof (Sync_unfold env svc acct w) as HS. cbv zeta in HS. rewrite Hout in HS.
  split; [reflexivity|]. split; [|split; [|split]].
  - destruct (Sync_trace env svc acct w) as [more Hmore]. rewrite Hout in Hmore. eauto.
  - intros restate. rewrite forRange_withState. symmetry. exact HS.
  - destruct (syncInstances_output env svc acct (allInstances result)
                (record (EvDescribeInstances svc params (inl result)) w))
      as (printed & rest & w1 & E & Hrun & Hstd & Hrest).
    destruct (syncInstances_printed env svc acct _ _ _ Hrun) as (ages & Hlen & Hlines).
    exists printed, rest, ages. rewrite HS, Hrun. cbn [snd].
    split; [exact E|]. split; [exact Hlen|]. split; [rewrite Hstd; exact Hlines|].
    split; [|exact Hrest].
    intros H. rewrite E in H. apply Forall_app in H. apply H.
  - intros Hres.
    destruct (syncInstances_resolve env svc acct (allInstances result)
                (record (EvDescribeInstances svc params (inl result)) w) Hres)
      as [w' Hrun].
    rewrite HS, Hrun. split; [reflexivity|].
    apply (syncInstances_printed env svc acct _ _ _ Hrun).
Qed.

Lemma Sync_prints_the_filtered_answer_witness :
  fst (Sync goodEnv defaultClient "123456789091" initial) = None /\
  exists ages,
    length ages = 2%nat /\
    stdout (snd (Sync goodEnv defaultClient "123456789091" initial))
      = zip_with (line "123456789091") [webInstance; dbInstance] ages.
Proof.
  refine (proj2 (proj2 (proj2 (proj2
    (Sync_prints_the_filtered_answer goodEnv defaultClient "123456789091" initial
       {| Reservations := [ {| Instances := [webInstance; dbInstance] |} ] |} _)))) _).
  - reflexivity.
  - once constructor; [|once constructor; [|once constructor]];
      unfold resolves; change (cache initial) with (∅ : gmap string string);
      rewrite lookup_empty; intros tr;
      exists {| Images := [ {| CreationDate := sampleDate |} ] |},
             {| CreationDate := sampleDate |}, [], (1704067200 * Second);
      repeat split.
Defined.

(** The claim C1 itself fails: an instance that the answer reports as stopped
    is printed like any other. *)
Lemma Sync_prints_a_stopped_instance :
  State stoppedInstance = "stopped" /\
  ec2_DescribeInstances stoppedEnv [] defaultClient params
    = inl {| Reservations := [ {| Instances := [stoppedInstance] |} ] |} /\
  fst (Sync stoppedEnv defaultClient "123456789091" initial) = None /\
  stdout (snd (Sync stoppedEnv defaultClient "123456789091" initial))
    = ["123456789091 i-0abc i-0abc ami-1 10 days" +:+ newline].
Proof. vm_compute. repeat split. Qed.

(** ** Errors that name the image *)

Lemma append_cons c s t : String c s +:+ t = String c (s +:+ t).
Proof. reflexivity. Qed.

Lemma prefix_append s t : String.prefix s (s +:+ t) = true.
Proof.
  induction s as [|c s IH]; [destruct t; reflexivity|].
  rewrite append_cons. cbn [String.prefix].
  destruct (ascii_dec c c) as [_|N]; [exact IH | contradiction].
Qed.

Lemma strings_Contains_here s t : strings_Contains (s +:+ t) s = true.
Proof.
  destruct s as [|c s]; [destruct t; reflexivity|].
  rewrite append_cons. cbn [strings_Contains].
  rewrite <- append_cons, prefix_append. reflexivity.
Qed.

Lemma strings_Contains_append s t sub :
  strings_Contains t sub = true -> strings_Contains (s +:+ t) sub = true.
Proof.
  intros H. induction s as [|c s IH]; [exact H|].
  rewrite append_cons. cbn [strings_Contains]. rewrite IH. apply orb_true_r.
Qed.

(** ** One failure ends the account *)

(** C6, as the code has it.  When the instances before [failing] have been
    printed and the image of [failing] fails, because the lookup is
    answered with an error, because it finds no image, or because the date
    that is obtained does not parse, [Sync] returns the error of this
    failure at once: the output has the lines of the instances before it
    and nothing else, and nothing is asked of the service or of the clock
    after the lookup of this image.  The error of a failed lookup contains
    the image identifier; the error of a date that does not parse contains
    the date, which is now in the cache for the image. *)
Theorem Sync_fails_fast env svc acct w result printed failing rest w1 f :
  ec2_DescribeInstances env (trace w) svc params = inl result ->
  allInstances result = printed ++ failing :: rest ->
  forRange (syncInstance env svc acct) printed
           (record (EvDescribeInstances svc params (inl result)) w) = (None, w1) ->
  failure env svc w1 failing f ->
  fst (Sync env svc acct w) = Some (failureText failing f) /\
  (exists ages,
      length ages = length printed /\
      stdout (snd (Sync env svc acct w)) = stdout w ++ zip_with (line acct) printed ages) /\
  trace (snd (Sync env svc acct w)) = trace w1 ++ lookupOf env svc w1 failing /\
  match f with
  | Unparsable create _ =>
      cache (snd (Sync env svc acct w)) !! ImageId failing = Some create /\
      strings_Contains (failureText failing f) create = true
  | _ => strings_Contains (failureText failing f) (ImageId failing) = true
  end.
Proof.
  intros Hout Hall Hprinted Hfail.
  destruct (syncInstance_fails env svc acct failing w1 f Hfail)
    as (w2 & E & Hstd & Htr & Hcache).
  assert (HS : Sync env svc acct w = (Some (failureText failing f), w2)).
  { rewrite Sync_unfold. cbn. rewrite Hout, Hall, forRange_app, Hprinted. cbn.
    rewrite E. reflexivity. }
  rewrite HS. cbn [fst snd]. split; [reflexivity|]. split; [|split; [exact Htr|]].
  - destruct (syncInstances_printed env svc acct _ _ _ Hprinted) as (ages & Hlen & Hlines).
    exists ages. split; [exact Hlen|]. rewrite Hstd. exact Hlines.
  - destruct f as [cause| |create e]; cbn [failureText].
    + apply strings_Contains_append, strings_Contains_here.
    + apply strings_Contains_append, strings_Contains_here.
    + split; [exact Hcache | apply strings_Contains_append, strings_Contains_here].
Qed.

Lemma Sync_fails_fast_witness :
  fst (Sync retryEnv defaultClient "123456789091" initial)
    = Some ("failed to get creation date of ami-0123456789abcdef0: "
            +:+ "error getting image info: RequestLimitExceeded: Request limit exceeded.") /\
  (fst (Sync lostImageEnv defaultClient "123456789091" initial)
     = Some ("failed to get creation date of ami-0fedcba9876543210: "
             +:+ "no date for ami-0fedcba9876543210") /\
   exists ages,
     length ages = 1%nat /\
     stdout (snd (Sync lostImageEnv defaultClient "123456789091" initial))
       = zip_with (line "123456789091") [webInstance] ages) /\
  fst (Sync badDateEnv defaultClient "123456789091" initial)
    = Some ("failed to parse time string 2019-03-07: "
            +:+ ParseError_elem "2019-03-07" "T" "").
Proof.
  split; [|split].
  - refine (proj1 (Sync_fails_fast retryEnv defaultClient "123456789091" initial
                     {| Reservations := [ {| Instances := [webInstance] |} ] |}
                     [] webInstance [] _
                     (Refused "RequestLimitExceeded: Request limit exceeded.") _ _ _ _)).
    + reflexivity.
    + reflexivity.
    + reflexivity.
    + vm_compute. split; reflexivity.
  - pose proof (Sync_fails_fast lostImageEnv defaultClient "123456789091" initial
                  {| Reservations :=
                       [ {| Instances := [webInstance; lostInstance; dbInstance] |} ] |}
                  [webInstance] lostInstance [dbInstance]
                  (snd (forRange (syncInstance lostImageEnv defaultClient "123456789091")
                          [webInstance]
                          (record (EvDescribeInstances defaultClient params
                                     (ec2_DescribeInstances lostImageEnv [] defaultClient params))
                             initial)))
                  NotFound) as H.
    refine ((fun H' => conj (proj1 H') (proj1 (proj2 H'))) (H _ _ _ _)).
    + reflexivity.
    + reflexivity.
    + vm_compute. reflexivity.
    + vm_compute. split; [reflexivity|]. eexists. split; reflexivity.
  - refine (proj1 (Sync_fails_fast badDateEnv defaultClient "123456789091" initial
                     {| Reservations := [ {| Instances := [webInstance; dbInstance] |} ] |}
                     [] webInstance [dbInstance] _
                     (Unparsable "2019-03-07" (ParseError_elem "2019-03-07" "T" "")) _ _ _ _)).
    + reflexivity.
    + reflexivity.
    + reflexivity.
    + vm_compute. split; [|reflexivity].
      eexists _, _, _. repeat split.
Defined.

(** The claim C6 itself fails for a time stamp that does not parse: the
    error quotes the time stamp and not the image. *)
Lemma Sync_parse_error_names_no_image :
  cache (snd (Sync badDateEnv defaultClient "123456789091" initial))
    !! ImageId webInstance = Some "2019-03-07" /\
  fst (Sync badDateEnv defaultClient "123456789091" initial)
    = Some ("failed to parse time string 2019-03-07: "
            +:+ ParseError_elem "2019-03-07" "T" "") /\
  strings_Contains
    ("failed to parse time string 2019-03-07: " +:+ ParseError_elem "2019-03-07" "T" "")
    (ImageId webInstance) = false /\
  stdout (snd (Sync badDateEnv defaultClient "123456789091" initial)) = [].
Proof. vm_compute. repeat split. Qed.

(** ** The age of the image *)

Lemma Time_Sub_range t u : minDuration <= Time_Sub t u <= maxDuration.
Proof.
  unfold Time_Sub, minDuration, maxDuration.
  destruct (Z.ltb_spec (t - u) (- 2 ^ 63)); [lia|].
  destruct (Z.ltb_spec (2 ^ 63 - 1) (t - u)); lia.
Qed.

Lemma Time_Sub_exact t u :
  minDuration <= t - u <= maxDuration -> Time_Sub t u = t - u.
Proof.
  unfold Time_Sub, minDuration, maxDuration. intros H.
  destruct (Z.ltb_spec (t - u) (- 2 ^ 63)); [lia|].
  destruct (Z.ltb_spec (2 ^ 63 - 1) (t - u)); lia.
Qed.

Lemma ageAt_quot now t :
  Z.abs (Z.rem (Time_Sub now t) Day) <= Day - 2 * Microsecond ->
  ageAt now t = Z.quot (Time_Sub now t) Day.
Proof. intros H. apply days_quot; [apply Time_Sub_range | exact H]. Qed.

(** C3, as the code has it.  For an instance whose image has a creation date
    that parses to [t], the clock is read once, after the date has been
    resolved, and the line shows the age [diff / 24h] truncated towards
    zero, where [diff] is [now - t] kept within the range of a [Duration].
    The division is done in [float64], which is exact unless [diff] is
    within two microseconds of the next multiple of 24 hours.  When
    [0 <= now - t] fits a [Duration] this is the floor of the quotient; for
    the creation date 2024-01-01T00:00:00.000Z read at
    2024-01-11T00:00:00.000Z the line shows [10 days]. *)
Theorem syncInstance_age env svc acct instance w create w1 t :
  amiCreation env svc (ImageId instance) w = ((create, None), w1) ->
  time_Parse create = inl t ->
  let now := time_Now env (trace w1) in
  let diff := Time_Sub now t in
  Z.abs (Z.rem diff Day) <= Day - 2 * Microsecond ->
  syncInstance env svc acct instance w
    = (None, fmt_Printf (line acct instance (Z.quot diff Day)) (record (EvNow now) w1)) /\
  (0 <= now - t <= maxDuration -> Z.quot diff Day = (now - t) / Day) /\
  (create = "2024-01-01T00:00:00.000Z" -> now = time_Date 2024 1 11 0 0 0 0 ->
   line acct instance (Z.quot diff Day)
     = acct +:+ " " +:+ InstanceId instance +:+ " " +:+ tagName instance +:+ " "
       +:+ ImageId instance +:+ " " +:+ "10 days" +:+ newline).
Proof.
  intros Hami Hparse now diff Hrem. split; [|split].
  - rewrite syncInstance_unfold, Hami, Hparse. cbn. fold now.
    rewrite (ageAt_quot now t Hrem). reflexivity.
  - intros Hpos. unfold diff. rewrite Time_Sub_exact by (unfold minDuration; lia).
    apply Z.quot_div_nonneg; [lia | reflexivity].
  - intros -> Hnow.
    assert (E : time_Parse "2024-01-01T00:00:00.000Z" = inl (time_Date 2024 1 1 0 0 0 0))
      by (vm_compute; reflexivity).
    rewrite E in Hparse. injection Hparse as <-.
    unfold diff. rewrite Hnow. reflexivity.
Qed.

Lemma syncInstance_age_witness :
  syncInstance (ageEnv sampleDate (time_Date 2024 1 11 0 0 0 0)) defaultClient
    "123456789091" webInstance initial
  = (None,
     fmt_Printf ("123456789091 i-1 web ami-0123456789abcdef0 10 days" +:+ newline)
       (record (EvNow (time_Date 2024 1 11 0 0 0 0))
          (set_cache {[ "ami-0123456789abcdef0" := sampleDate ]}
             (record (EvDescribeImages defaultClient
                        {| ImageIds := ["ami-0123456789abcdef0"] |}
                        (imageCreated sampleDate)) initial)))).
Proof.
  refine (proj1 (syncInstance_age (ageEnv sampleDate (time_Date 2024 1 11 0 0 0 0))
                   defaultClient "123456789091" webInstance initial sampleDate _
                   (time_Date 2024 1 1 0 0 0 0) _ _ _)).
  - reflexivity.
  - reflexivity.
  - vm_compute. discriminate.
Defined.

(** The claim C3 itself fails in three ways: an image created after the
    clock's time has its age rounded towards zero and not down; a difference
    just below a whole number of days is rounded up by the [float64]
    division; and a difference of more than about 292 years is cut off. *)
Lemma age_is_not_the_floor :
  (time_Parse "2024-01-01T12:00:00.000Z" = inl (time_Date 2024 1 1 12 0 0 0) /\
   stdout (snd (syncInstance (ageEnv "2024-01-01T12:00:00.000Z" (time_Date 2024 1 1 0 0 0 0))
                  defaultClient "123456789091" webInstance initial))
     = ["123456789091 i-1 web ami-0123456789abcdef0 0 days" +:+ newline] /\
   (time_Date 2024 1 1 0 0 0 0 - time_Date 2024 1 1 12 0 0 0) / Day = -1) /\
  (time_Parse sampleDate = inl (time_Date 2024 1 1 0 0 0 0) /\
   stdout (snd (syncInstance (ageEnv sampleDate (time_Date 2024 1 1 0 0 0 0 + 1000 * Day - 1))
                  defaultClient "123456789091" webInstance initial))
     = ["123456789091 i-1 web ami-0123456789abcdef0 1000 days" +:+ newline] /\
   (time_Date 2024 1 1 0 0 0 0 + 1000 * Day - 1 - time_Date 2024 1 1 0 0 0 0) / Day = 999) /\
  (time_Parse "1700-01-01T00:00:00.000Z" = inl (time_Date 1700 1 1 0 0 0 0) /\
   stdout (snd (syncInstance (ageEnv "1700-01-01T00:00:00.000Z" (time_Date 2024 1 1 0 0 0 0))
                  defaultClient "123456789091" webInstance initial))
     = ["123456789091 i-1 web ami-0123456789abcdef0 106751 days" +:+ newline] /\
   (time_Date 2024 1 1 0 0 0 0 - time_Date 1700 1 1 0 0 0 0) / Day = 118338).
Proof. vm_compute. repeat split. Qed.

(** ** Splitting a role into fields *)

Lemma strings_Split_noByte sep f : noByte sep f -> strings_Split f sep = [f].
Proof.
  induction f as [|c f IH]; cbn; [reflexivity|]. intros [Hc Hf].
  apply Ascii.eqb_neq in Hc. rewrite Hc, (IH Hf). reflexivity.
Qed.

Lemma strings_Split_field sep f s :
  noByte sep f -> strings_Split (f +:+ String sep s) sep = f :: strings_Split s sep.
Proof.
  induction f as [|c f IH]; intros H.
  - change ("" +:+ String sep s) with (String sep s). cbn.
    rewrite Ascii.eqb_refl. reflexivity.
  - destruct H as [Hc Hf]. rewrite append_cons. cbn [strings_Split].
    apply Ascii.eqb_neq in Hc. rewrite Hc, (IH Hf). reflexivity.
Qed.

(** Splitting undoes joining when no field has the separator. *)
Lemma strings_Split_Join sep fields :
  fields <> [] -> Forall (noByte sep) fields ->
  strings_Split (strings_Join fields sep) sep = fields.
Proof.
  intros Hne H. induction H as [|f fields Hf Hfields IH]; [contradiction|].
  destruct fields as [|g fields].
  - cbn. apply strings_Split_noByte, Hf.
  - change (strings_Join (f :: g :: fields) sep)
      with (f +:+ String sep (strings_Join (g :: fields) sep)).
    rewrite strings_Split_field by exact Hf.
    rewrite IH by discriminate. reflexivity.
Qed.

Lemma strings_Split_cons sep c s :
  strings_Split (String c s) sep
    = if Ascii.eqb c sep then EmptyString :: strings_Split s sep
      else match strings_Split s sep with
           | field :: fields => String c field :: fields
           | [] => [String c EmptyString]
           end.
Proof. reflexivity. Qed.

Lemma strings_Split_nonempty sep s : strings_Split s sep <> [].
Proof.
  destruct s as [|c s]; [discriminate|]. rewrite strings_Split_cons.
  destruct (Ascii.eqb c sep); [discriminate|].
  destruct (strings_Split s sep); discriminate.
Qed.

(** Every string is its fields joined by the separator, and no field has
    the separator. *)
Lemma strings_Join_Split sep s :
  strings_Join (strings_Split s sep) sep = s /\ Forall (noByte sep) (strings_Split s sep).
Proof.
  induction s as [|c s [IHj IHf]]; [split; [reflexivity | repeat constructor]|].
  rewrite strings_Split_cons. pose proof (strings_Split_nonempty sep s) as Hs.
  destruct (Ascii.eqb_spec c sep) as [->|Hne].
  - split; [|constructor; [exact I | exact IHf]].
    destruct (strings_Split s sep) as [|f fs] eqn:E; [contradiction|].
    change (strings_Join ("" :: f :: fs) sep)
      with ("" +:+ String sep (strings_Join (f :: fs) sep)).
    rewrite IHj. reflexivity.
  - destruct (strings_Split s sep) as [|f fs] eqn:E; [contradiction|].
    apply Forall_cons in IHf as [Hf Hfs].
    split; [|constructor; [split; assumption | exact Hfs]].
    rewrite <- IHj. destruct fs; reflexivity.
Qed.

(** ** The loop over the roles *)

Section Roles.
Variable env : Env.

Lemma syncRole_comment role w :
  strings_HasPrefix role "#" = true -> syncRole env role w = (Returned, w).
Proof. intros H. unfold syncRole. rewrite H. reflexivity. Qed.

Lemma syncRole_account role w acct :
  strings_HasPrefix role "#" = false ->
  strings_Split role ":" !! 4%nat = Some acct ->
  syncRole env role w = (Returned, reported role (Sync env (roleClient role) acct w)).
Proof.
  intros Hc Hacct. unfold syncRole, reported, roleClient. rewrite Hc, Hacct.
  destruct (Sync env _ acct w) as [[err|] w']; reflexivity.
Qed.

Lemma syncRole_panic role w :
  strings_HasPrefix role "#" = false ->
  strings_Split role ":" !! 4%nat = None ->
  syncRole env role w
    = (Panicked ("runtime error: index out of range [4] with length "
                 +:+ pretty (length (strings_Split role ":"))), w).
Proof. intros Hc Hacct. unfold syncRole. rewrite Hc, Hacct. reflexivity. Qed.

Lemma roleLoop_app l1 l2 w :
  roleLoop env (l1 ++ l2) w =
    match roleLoop env l1 w with
    | (Panicked msg, w') => (Panicked msg, w')
    | (Returned, w') => roleLoop env l2 w'
    end.
Proof.
  revert w. induction l1 as [|role l1 IH]; intros w; cbn; [reflexivity|].
  destruct (syncRole env role w) as [[|msg] w']; [apply IH | reflexivity].
Qed.

Lemma reported_grows role r w : grows w (snd r) -> grows w (reported role r).
Proof.
  intros G. unfold reported. destruct (fst r); [|exact G].
  eapply grows_trans; [exact G | apply grows_Printf].
Qed.

Lemma syncRole_grows role w : grows w (snd (syncRole env role w)).
Proof.
  unfold syncRole. destruct (strings_HasPrefix role "#"); [apply grows_refl|].
  destruct (strings_Split role ":" !! 4%nat) as [acct|]; [|apply grows_refl].
  pose proof (Sync_grows env (roleClient role) acct w) as G. unfold roleClient in G.
  destruct (Sync env _ acct w) as [[err|] w']; cbn in *; [|exact G].
  eapply grows_trans; [exact G | apply grows_Printf].
Qed.

Lemma roleLoop_grows lines w : grows w (snd (roleLoop env lines w)).
Proof.
  revert w. induction lines as [|role lines IH]; intros w; cbn; [apply grows_refl|].
  pose proof (syncRole_grows role w) as G.
  destruct (syncRole env role w) as [[|msg] w']; cbn in G; [|exact G].
  eapply grows_trans; [exact G | apply IH].
Qed.

(** On well-formed lines the loop comes to its end, whatever [Sync] answers. *)
Lemma roleLoop_returns lines w :
  Forall wellFormed lines -> fst (roleLoop env lines w) = Returned.
Proof.
  intros H. revert w. induction H as [|role lines Hrole _ IH]; intros w; cbn; [reflexivity|].
  destruct (strings_HasPrefix role "#") eqn:Hc.
  - rewrite (syncRole_comment role w Hc). apply IH.
  - destruct Hrole as [Hrole|[acct Hacct]]; [congruence|].
    rewrite (syncRole_account role w acct Hc Hacct). apply IH.
Qed.

(** [main] in the mode with a role file. *)
Lemma main_roles roles lines scanErr acct w :
  session_NewSession env = None ->
  sts_GetCallerIdentity env (trace w) = inl acct ->
  String.eqb roles "" = false ->
  os_Open env roles = inl (lines, scanErr) ->
  main env roles w =
    match roleLoop env lines (record (EvGetCallerIdentity (inl acct)) (set_cache ∅ w)) with
    | (Panicked msg, w') => (Panicked msg, w')
    | (Returned, w') =>
        match scanErr with
        | Some err =>
            (Returned,
             fmt_Printf ("Error processing role-file: " +:+ roles +:+ " " +:+ err
                         +:+ newline) w')
        | None => (Returned, w')
        end
    end.
Proof.
  intros Hs Hid Hroles Hopen. unfold main, GetCallerIdentity. cbn.
  rewrite Hs, Hid, Hroles, Hopen. reflexivity.
Qed.
End Roles.

(** C9. For a line that is not a comment and is made of fields joined by
    colons, the account passed to [Sync] is the fifth field as it stands;
    for the role arn:aws:iam::123456789091:role/account-name-ABCDFFDFDKLJ
    it is 123456789091. *)
Theorem syncRole_passes_fifth_field env role w fields acct :
  strings_HasPrefix role "#" = false ->
  Forall (noByte ":") fields ->
  role = strings_Join fields ":" ->
  fields !! 4%nat = Some acct ->
  strings_Split role ":" !! 4%nat = Some acct /\
  syncRole env role w = (Returned, reported role (Sync env (roleClient role) acct w)) /\
  strings_Split "arn:aws:iam::123456789091:role/account-name-ABCDFFDFDKLJ" ":" !! 4%nat
    = Some "123456789091".
Proof.
  intros Hc Hfields -> Hacct.
  assert (H : strings_Split (strings_Join fields ":") ":" !! 4%nat = Some acct).
  { rewrite strings_Split_Join; [exact Hacct | | exact Hfields].
    intros ->. discriminate. }
  split; [exact H|]. split; [|reflexivity].
  apply syncRole_account; assumption.
Qed.

Lemma syncRole_passes_fifth_field_witness :
  strings_Split sampleRole ":" !! 4%nat = Some "123456789091" /\
  syncRole goodEnv sampleRole initial
    = (Returned, reported sampleRole (Sync goodEnv (roleClient sampleRole) "123456789091" initial)).
Proof.
  refine ((fun H => conj (proj1 H) (proj1 (proj2 H)))
            (syncRole_passes_fifth_field goodEnv sampleRole initial
               ["arn"; "aws"; "iam"; ""; "123456789091"; "role/account-name-ABCDFFDFDKLJ"]
               "123456789091" _ _ _ _)).
  - reflexivity.
  - repeat constructor; discriminate.
  - reflexivity.
  - reflexivity.
Defined.

(** C10. A line that is not a comment and has fewer than five fields makes
    the index expression [data[4]] fail: the body of the loop panics without
    having printed anything, so do the loop and [main] once they reach the
    line, and the lines after it are never looked at.  The empty line is
    such a line. *)
Theorem syncRole_short_line_panics env role w :
  strings_HasPrefix role "#" = false ->
  (length (strings_Split role ":") < 5)%nat ->
  strings_Split role ":" !! 4%nat = None /\
  (exists msg,
      syncRole env role w = (Panicked msg, w) /\
      (forall before after w0,
          roleLoop env before w0 = (Returned, w) ->
          roleLoop env (before ++ role :: after) w0 = (Panicked msg, w)) /\
      (forall roles before after scanErr acct w0,
          session_NewSession env = None ->
          sts_GetCallerIdentity env (trace w0) = inl acct ->
          String.eqb roles "" = false ->
          os_Open env roles = inl (before ++ role :: after, scanErr) ->
          roleLoop env before (record (EvGetCallerIdentity (inl acct)) (set_cache ∅ w0))
            = (Returned, w) ->
          main env roles w0 = (Panicked msg, w))) /\
  strings_HasPrefix "" "#" = false /\ length (strings_Split "" ":") = 1%nat.
Proof.
  intros Hc Hlen.
  assert (Hnone : strings_Split role ":" !! 4%nat = None) by (apply lookup_ge_None; lia).
  split; [exact Hnone|]. split; [|split; reflexivity].
  set (msg := "runtime error: index out of range [4] with length "
              +:+ pretty (length (strings_Split role ":"))).
  exists msg. split; [apply syncRole_panic; assumption|].
  assert (Hloop : forall before after w0,
             roleLoop env before w0 = (Returned, w) ->
             roleLoop env (before ++ role :: after) w0 = (Panicked msg, w)).
  { intros before after w0 Hbefore. rewrite roleLoop_app, Hbefore. cbn.
    rewrite (syncRole_panic env role w Hc Hnone). reflexivity. }
  split; [exact Hloop|].
  intros roles before after scanErr acct w0 Hs Hid Hroles Hopen Hbefore.
  rewrite (main_roles env roles _ scanErr acct w0 Hs Hid Hroles Hopen).
  rewrite (Hloop before after _ Hbefore). reflexivity.
Qed.

Lemma syncRole_short_line_panics_witness :
  main (staticEnv [webInstance] (fun _ => imageCreated sampleDate) 0 [""; sampleRole])
       "roles.list" initial
  = (Panicked "runtime error: index out of range [4] with length 1",
     record (EvGetCallerIdentity (inl "123456789091")) initial).
Proof.
  destruct (syncRole_short_line_panics
              (staticEnv [webInstance] (fun _ => imageCreated sampleDate) 0 [""; sampleRole])
              "" (record (EvGetCallerIdentity (inl "123456789091")) initial))
    as (_ & (msg & Hbody & _ & Hmain) & _).
  - reflexivity.
  - cbn. lia.
  - rewrite (Hmain "roles.list" [] [sampleRole] None "123456789091" initial);
      try reflexivity.
    cbv in Hbody. congruence.
Defined.

(** C7. In the loop over the roles, a [Sync] that fails for role [A] is
    reported on the output and the loop goes on: when the lines between [A]
    and a later role [B] are comments or roles with a fifth field, [Sync]
    is run for [B], in a world that has the report about [A], and what it
    prints stays on the output. *)
Theorem roleLoop_isolates_failures env before A middle B after w wA acctA errA wA' acctB :
  roleLoop env before w = (Returned, wA) ->
  strings_HasPrefix A "#" = false ->
  strings_Split A ":" !! 4%nat = Some acctA ->
  Sync env (roleClient A) acctA wA = (Some errA, wA') ->
  Forall wellFormed middle ->
  strings_HasPrefix B "#" = false ->
  strings_Split B ":" !! 4%nat = Some acctB ->
  let report := fmt_Printf ("Error for role " +:+ A +:+ " " +:+ errA +:+ newline) wA' in
  roleLoop env (before ++ [A]) w = (Returned, report) /\
  exists wB,
    roleLoop env (before ++ A :: middle) w = (Returned, wB) /\
    grows report wB /\
    roleLoop env (before ++ A :: middle ++ B :: after) w
      = roleLoop env after (reported B (Sync env (roleClient B) acctB wB)) /\
    grows (snd (Sync env (roleClient B) acctB wB))
          (snd (roleLoop env (before ++ A :: middle ++ B :: after) w)).
Proof.
  intros Hbefore HcA HacctA HsyncA Hmiddle HcB HacctB report.
  assert (HA : roleLoop env (before ++ [A]) w = (Returned, report)).
  { rewrite roleLoop_app, Hbefore. cbn.
    rewrite (syncRole_account env A wA acctA HcA HacctA), HsyncA. reflexivity. }
  split; [exact HA|].
  exists (snd (roleLoop env middle report)).
  assert (HM : roleLoop env (before ++ A :: middle) w
               = (Returned, snd (roleLoop env middle report))).
  { change (A :: middle) with ([A] ++ middle).
    rewrite app_assoc, roleLoop_app, HA.
    pose proof (roleLoop_returns env middle report Hmiddle) as Hret.
    destruct (roleLoop env middle report) as [x wB]. cbn in Hret. subst x. reflexivity. }
  assert (HB : roleLoop env (before ++ A :: middle ++ B :: after) w
               = roleLoop env after
                   (reported B (Sync env (roleClient B) acctB (snd (roleLoop env middle report))))).
  { change (A :: middle ++ B :: after) with ((A :: middle) ++ B :: after).
    rewrite app_assoc, roleLoop_app, HM. cbn.
    rewrite (syncRole_account env B _ acctB HcB HacctB). reflexivity. }
  split; [exact HM|]. split; [apply roleLoop_grows|]. split; [exact HB|].
  rewrite HB. eapply grows_trans; [|apply roleLoop_grows].
  apply reported_grows, grows_refl.
Qed.

Lemma roleLoop_isolates_failures_witness :
  exists wB,
    roleLoop isolationEnv ([] ++ sampleRole :: ["# dns"] ++ otherRole :: []) initial
      = roleLoop isolationEnv []
          (reported otherRole (Sync isolationEnv (roleClient otherRole) "123456789092" wB)) /\
    stdout (snd (Sync isolationEnv (roleClient otherRole) "123456789092" wB))
      = [ "Error for role " +:+ sampleRole +:+ " DescribeInstances failed: "
          +:+ "UnauthorizedOperation: You are not authorized to perform this operation."
          +:+ newline;
          "123456789092 i-1 web ami-0123456789abcdef0 10 days" +:+ newline ].
Proof.
  destruct (roleLoop_isolates_failures isolationEnv [] sampleRole ["# dns"] otherRole []
              initial initial "123456789091"
              ("DescribeInstances failed: "
               +:+ "UnauthorizedOperation: You are not authorized to perform this operation.")
              (record (EvDescribeInstances (roleClient sampleRole) params
                         (inr "UnauthorizedOperation: You are not authorized to perform this operation."))
                 initial)
              "123456789092")
    as (_ & wB & HM & _ & HB & _).
  - reflexivity.
  - reflexivity.
  - reflexivity.
  - reflexivity.
  - constructor; [left; reflexivity | constructor].
  - reflexivity.
  - reflexivity.
  - exists wB. split; [exact HB|].
    vm_compute in HM. injection HM as <-. vm_compute. reflexivity.
Defined.

(** ** How often an image is looked up *)

Section Lookups.
Variable env : Env.

Lemma count_app {A : Type} (f : A -> bool) l1 l2 :
  count f (l1 ++ l2) = (count f l1 + count f l2)%nat.
Proof. induction l1 as [|x l1 IH]; cbn; [reflexivity|]. rewrite IH. lia. Qed.
















End Lookups.




(** * Further properties *)

(** ** What the loops preserve *)

Section Preserved.
Variable env : Env.
Variable P : World -> Prop.
Hypothesis P_amiCreation : forall svc id w, P w -> P (snd (amiCreation env svc id w)).
Hypothesis P_Now : forall t w, P w -> P (record (EvNow t) w).
Hypothesis P_Printf : forall s w, P w -> P (fmt_Printf s w).
Hypothesis P_listing :
  forall svc input out w, P w -> P (record (EvDescribeInstances svc input out) w).

Lemma syncInstance_preserves svc acct instance w :
  P w -> P (snd (syncInstance env svc acct instance w)).
Proof.
  intros H. rewrite syncInstance_unfold.
  pose proof (P_amiCreation svc (ImageId instance) w H) as H1.
  destruct (amiCreation env svc (ImageId instance) w) as [[create [e|]] w1]; [exact H1|].
  destruct (time_Parse create) as [t|e]; [|exact H1].
  cbn. apply P_Printf, P_Now, H1.
Qed.

Lemma syncInstances_preserve svc acct l w :
  P w -> P (snd (forRange (syncInstance env svc acct) l w)).
Proof.
  revert w. induction l as [|instance l IH]; intros w H; cbn; [exact H|].
  pose proof (syncInstance_preserves svc acct instance w H) as H1.
  destruct (syncInstance env svc acct instance w) as [[err|] w']; [exact H1 | apply IH, H1].
Qed.

Lemma Sync_preserves svc acct w : P w -> P (snd (Sync env svc acct w)).
Proof.
  intros H. rewrite Sync_unfold. cbn.
  pose proof (P_listing svc params (ec2_DescribeInstances env (trace w) svc params) w H) as H1.
  destruct (ec2_DescribeInstances env (trace w) svc params) as [result|err]; [|exact H1].
  apply syncInstances_preserve, H1.
Qed.

Lemma syncRole_preserves role w : P w -> P (snd (syncRole env role w)).
Proof.
  intros H. unfold syncRole. destruct (strings_HasPrefix role "#"); [exact H|].
  destruct (strings_Split role ":" !! 4%nat) as [acct|]; [|exact H].
  pose proof (Sync_preserves {| Credentials := Some role |} acct w H) as H1.
  destruct (Sync env _ acct w) as [[err|] w']; [apply P_Printf|]; exact H1.
Qed.

Lemma roleLoop_preserves lines w : P w -> P (snd (roleLoop env lines w)).
Proof.
  revert w. induction lines as [|role lines IH]; intros w H; cbn; [exact H|].
  pose proof (syncRole_preserves role w H) as H1.
  destruct (syncRole env role w) as [[|msg] w']; [apply IH, H1 | exact H1].
Qed.

Hypothesis P_identity : forall out w, P w -> P (record (EvGetCallerIdentity out) w).

Lemma main_preserves roles w : P (set_cache ∅ w) -> P (snd (main env roles w)).
Proof.
  intros H. unfold main.
  destruct (session_NewSession env) as [err|]; [apply P_Printf, H|].
  unfold GetCallerIdentity.
  set (out := sts_GetCallerIdentity env (trace (set_cache ∅ w))).
  pose proof (P_identity out _ H) as H1.
  destruct out as [acct|err]; [|apply P_Printf, H1].
  destruct (String.eqb roles "").
  - pose proof (Sync_preserves {| Credentials := None |} acct _ H1) as H2.
    destruct (Sync env _ acct _) as [[err|] w']; [apply P_Printf|]; exact H2.
  - destruct (os_Open env roles) as [[lines scanErr]|err]; [|apply P_Printf, H1].
    pose proof (roleLoop_preserves lines _ H1) as H2.
    destruct (roleLoop env lines _) as [[|msg] w']; [|exact H2].
    destruct scanErr; [apply P_Printf|]; exact H2.
Qed.
End Preserved.

(** ** The entries of the cache *)

Lemma amiCreation_entries env svc id w id' :
  cache (snd (amiCreation env svc id w)) !! id' = cache w !! id' \/
  (id' = id /\ cache w !! id = None).
Proof.
  destruct (cache w !! id) as [cached|] eqn:E.
  - rewrite (amiCreation_hit _ _ _ _ _ E). auto.
  - rewrite (amiCreation_miss _ _ _ _ E). cbn.
    destruct (ec2_DescribeImages env (trace w) svc _) as [result|cause]; [|auto].
    destruct (Images result); [auto|]. cbn.
    destruct (decide (id' = id)) as [->|Hne]; [auto|].
    left. apply lookup_insert_ne. congruence.
Qed.

(** X3. A resolution of [id] leaves the cache entry of every other
    identifier as it was, and it never changes an entry that exists: the
    only change it can make is to add the entry of [id]. *)
Theorem amiCreation_touches_one_entry env svc id w id' :
  id' <> id \/ is_Some (cache w !! id') ->
  cache (snd (amiCreation env svc id w)) !! id' = cache w !! id'.
Proof.
  intros H. destruct (amiCreation_entries env svc id w id') as [E|[-> E]]; [exact E|].
  destruct H as [H|[d H]]; [contradiction | congruence].
Qed.

Lemma amiCreation_touches_one_entry_witness :
  cache (snd (amiCreation goodEnv defaultClient "ami-2"
                (set_cache {[ "ami-1" := "2019-03-07" ]} initial))) !! "ami-1"
  = Some "2019-03-07".
Proof.
  rewrite (amiCreation_touches_one_entry goodEnv defaultClient "ami-2"
             (set_cache {[ "ami-1" := "2019-03-07" ]} initial) "ami-1").
  - reflexivity.
  - left. discriminate.
Defined.

Lemma amiCreation_cache_grows env svc id w :
  cache w ⊆ cache (snd (amiCreation env svc id w)).
Proof.
  apply map_subseteq_spec. intros id' d H.
  destruct (amiCreation_entries env svc id w id') as [E|[-> E]]; congruence.
Qed.

Lemma cache_kept_by_loops env (w0 : World) :
  (forall svc acct l w,
      cache w0 ⊆ cache w ->
      cache w0 ⊆ cache (snd (forRange (syncInstance env svc acct) l w))) /\
  (forall svc acct w, cache w0 ⊆ cache w -> cache w0 ⊆ cache (snd (Sync env svc acct w))) /\
  (forall lines w, cache w0 ⊆ cache w -> cache w0 ⊆ cache (snd (roleLoop env lines w))).
Proof.
  assert (A : forall svc id w,
             cache w0 ⊆ cache w -> cache w0 ⊆ cache (snd (amiCreation env svc id w))).
  { intros svc id w H. etrans; [exact H | apply amiCreation_cache_grows]. }
  split; [|split].
  - intros svc acct l w. apply (syncInstances_preserve env (fun w => cache w0 ⊆ cache w)); auto.
  - intros svc acct w. apply (Sync_preserves env (fun w => cache w0 ⊆ cache w)); auto.
  - intros lines w. apply (roleLoop_preserves env (fun w => cache w0 ⊆ cache w)); auto.
Qed.

(** X4. Nothing is ever taken out of the cache or overwritten: an entry
    that is in the cache before an account is synchronised, or before the
    loop over the roles, is there afterwards with the same date, so what was
    resolved for one role serves the roles after it. *)
Theorem cache_only_grows env lines svc acct w id date :
  cache w !! id = Some date ->
  cache (snd (Sync env svc acct w)) !! id = Some date /\
  cache (snd (roleLoop env lines w)) !! id = Some date.
Proof.
  intros H. destruct (cache_kept_by_loops env w) as (_ & HS & HR).
  split.
  - refine (lookup_weaken _ _ _ _ H _). apply HS. reflexivity.
  - refine (lookup_weaken _ _ _ _ H _). apply HR. reflexivity.
Qed.

Lemma cache_only_grows_witness :
  cache (snd (roleLoop isolationEnv [sampleRole; "# dns"; otherRole]
                (set_cache {[ "ami-1" := "2019-03-07" ]} initial))) !! "ami-1"
  = Some "2019-03-07".
Proof.
  apply (cache_only_grows isolationEnv [sampleRole; "# dns"; otherRole] defaultClient ""
           (set_cache {[ "ami-1" := "2019-03-07" ]} initial) "ami-1" "2019-03-07").
  reflexivity.
Defined.

(** ** Where the entries of the cache come from *)

(** The history after a resolution: as it was on a hit, one lookup longer on
    a miss; a resolution that succeeds on a miss has found an image. *)
Lemma amiCreation_trace env svc id w :
  let out := ec2_DescribeImages env (trace w) svc {| ImageIds := [id] |} in
  let r := amiCreation env svc id w in
  (is_Some (cache w !! id) /\ snd r = w) \/
  (cache w !! id = None /\
   trace (snd r) = trace w ++ [EvDescribeImages svc {| ImageIds := [id] |} out] /\
   (snd (fst r) = None ->
    exists result image images,
      out = inl result /\ Images result = image :: images /\
      cache (snd r) = <[id := CreationDate image]> (cache w))).
Proof.
  cbn. destruct (cache w !! id) as [cached|] eqn:E.
  - left. rewrite (amiCreation_hit _ _ _ _ _ E). eauto.
  - right. split; [reflexivity|]. rewrite (amiCreation_miss _ _ _ _ E). cbn.
    destruct (ec2_DescribeImages env (trace w) svc _) as [result|cause];
      [|split; [reflexivity | discriminate]].
    destruct (Images result) as [|image images] eqn:Himages;
      [split; [reflexivity | discriminate]|].
    split; [reflexivity|]. intros _. exists result, image, images. auto.
Qed.

Lemma cachedFrom_app tr more id date :
  cachedFrom tr id date -> cachedFrom (tr ++ more) id date.
Proof.
  intros (svc & out & image & images & Hin & H). exists svc, out, image, images.
  split; [apply in_or_app; left; exact Hin | exact H].
Qed.

Lemma provenance_record e w : provenance w -> provenance (record e w).
Proof. intros H id date Hc. apply cachedFrom_app, H, Hc. Qed.

Lemma provenance_amiCreation env svc id w :
  provenance w -> provenance (snd (amiCreation env svc id w)).
Proof.
  intros H. pose proof (amiCreation_trace env svc id w) as T. cbn in T.
  destruct T as [[_ ->]|(Hmiss & Htrace & Hfound)]; [exact H|].
  intros id' date Hc. rewrite Htrace.
  destruct (amiCreation_entries env svc id w id') as [E|[-> _]].
  - apply cachedFrom_app, H. congruence.
  - destruct (amiCreation env svc id w) as [[s [err|]] w1] eqn:R; cbn in *.
    + pose proof (amiCreation_failure _ _ _ _ _ _ _ R) as (Hsame & _). congruence.
    + destruct (Hfound eq_refl) as (result & image & images & Hout & Himages & Hcache).
      rewrite Hcache, lookup_insert_eq in Hc. injection Hc as <-.
      exists svc, result, image, images. rewrite <- Hout.
      split; [apply in_or_app; right; left; reflexivity | auto].
Qed.

(** X5. At the end of a run every entry of the cache is the creation date of
    the first image of an answer that the service gave to a lookup of that
    very identifier: dates are neither invented nor moved between
    identifiers. *)
Theorem cache_entries_come_from_lookups env roles id date :
  cache (snd (main env roles initial)) !! id = Some date ->
  cachedFrom (trace (snd (main env roles initial))) id date.
Proof.
  intros H. revert id date H. change (provenance (snd (main env roles initial))).
  apply (main_preserves env provenance).
  - intros svc id w. apply provenance_amiCreation.
  - intros t w. apply provenance_record.
  - intros s w Hw. exact Hw.
  - intros svc input out w. apply provenance_record.
  - intros out w. apply provenance_record.
  - intros id date Hc. cbn in Hc. rewrite lookup_empty in Hc. discriminate.
Qed.

Lemma cache_entries_come_from_lookups_witness :
  cachedFrom (trace (snd (main goodEnv "" initial))) "ami-0123456789abcdef0" sampleDate.
Proof.
  apply (cache_entries_come_from_lookups goodEnv "" "ami-0123456789abcdef0" sampleDate).
  vm_compute. reflexivity.
Defined.

(** ** What a successful [Sync] leaves in the cache *)

Lemma syncInstances_resolved env svc acct l w w' :
  forRange (syncInstance env svc acct) l w = (None, w') -> Forall (resolved w') l.
Proof.
  revert w. induction l as [|instance l IH]; intros w H; [constructor|].
  cbn in H. destruct (syncInstance env svc acct instance w) as [[err|] w1] eqn:E;
    [discriminate|].
  constructor; [|apply (IH w1), H].
  destruct (syncInstance_success _ _ _ _ _ _ E) as (create & w2 & t & Hami & Hparse & ->).
  exists create, t. split; [|exact Hparse].
  apply amiCreation_cached in Hami.
  destruct (cache_kept_by_loops env (fmt_Printf (line acct instance
              (ageAt (time_Now env (trace w2)) t)) (record (EvNow (time_Now env (trace w2))) w2)))
    as (Hloop & _).
  refine (lookup_weaken _ _ _ _ Hami _).
  specialize (Hloop svc acct l _ (reflexivity _)). rewrite H in Hloop. exact Hloop.
Qed.

(** X6. When [Sync] returns without an error, the image of every instance of
    the answer is in the cache, with a creation date that parses. *)
Theorem Sync_resolves_every_image env svc acct w result :
  ec2_DescribeInstances env (trace w) svc params = inl result ->
  fst (Sync env svc acct w) = None ->
  Forall (resolved (snd (Sync env svc acct w))) (allInstances result).
Proof.
  intros Hout. rewrite Sync_unfold. cbn. rewrite Hout. intros Hok.
  apply (syncInstances_resolved env svc acct (allInstances result)
           (record (EvDescribeInstances svc params (inl result)) w)).
  destruct (forRange _ _ _) as [err w']. cbn in Hok. subst err. reflexivity.
Qed.

Lemma Sync_resolves_every_image_witness :
  Forall (resolved (snd (Sync goodEnv defaultClient "123456789091" initial)))
         [webInstance; dbInstance].
Proof.
  apply (Sync_resolves_every_image goodEnv defaultClient "123456789091" initial
           {| Reservations := [ {| Instances := [webInstance; dbInstance] |} ] |}).
  - reflexivity.
  - vm_compute. reflexivity.
Defined.

(** ** Lookups within one account *)

Lemma count_snoc {A : Type} (f : A -> bool) l x :
  count f (l ++ [x]) = (count f l + if f x then 1 else 0)%nat.
Proof. rewrite count_app. cbn. lia. Qed.

Lemma isLookup_lookup id id' svc out :
  isLookup id' (EvDescribeImages svc {| ImageIds := [id] |} out)
    = bool_decide (id = id').
Proof.
  cbn. destruct (decide (id = id')) as [->|Hne].
  - rewrite !bool_decide_eq_true_2; reflexivity.
  - rewrite !bool_decide_eq_false_2; congruence.
Qed.

Lemma lookedUpOnce_refl w : lookedUpOnce w w.
Proof. intros id. left. reflexivity. Qed.

Lemma lookedUpOnce_le w0 w id :
  lookedUpOnce w0 w ->
  (count (isLookup id) (trace w) <= S (count (isLookup id) (trace w0)))%nat.
Proof. intros H. destruct (H id) as [->|[-> _]]; lia. Qed.

(** Events other than lookups, and output, keep the invariant. *)
Lemma lookedUpOnce_record w0 w e :
  (forall id, isLookup id e = false) -> lookedUpOnce w0 w -> lookedUpOnce w0 (record e w).
Proof.
  intros He H id. cbn. rewrite count_snoc, He, Nat.add_0_r. apply H.
Qed.

Lemma lookedUpOnce_amiCreation env svc id w0 w :
  lookedUpOnce w0 w ->
  (forall id',
      (count (isLookup id') (trace (snd (amiCreation env svc id w)))
       <= S (count (isLookup id') (trace w0)))%nat) /\
  (snd (fst (amiCreation env svc id w)) = None ->
   lookedUpOnce w0 (snd (amiCreation env svc id w))).
Proof.
  intros H. pose proof (amiCreation_trace env svc id w) as T. cbn in T.
  destruct T as [[_ ->]|(Hmiss & Htrace & Hfound)].
  { split; [intros id'; apply lookedUpOnce_le, H | intros _; exact H]. }
  assert (Hid : count (isLookup id) (trace w) = count (isLookup id) (trace w0)).
  { destruct (H id) as [E|[_ [d Hd]]]; [exact E | congruence]. }
  assert (Hcount : forall id',
             count (isLookup id') (trace (snd (amiCreation env svc id w)))
             = (count (isLookup id') (trace w) + if bool_decide (id = id') then 1 else 0)%nat).
  { intros id'. rewrite Htrace, count_snoc, isLookup_lookup. reflexivity. }
  split.
  - intros id'. rewrite Hcount. case_bool_decide as Hd.
    + subst id'. lia.
    + pose proof (lookedUpOnce_le w0 w id' H). lia.
  - intros Hok id'. rewrite Hcount.
    destruct (Hfound Hok) as (result & image & images & _ & _ & Hcache).
    rewrite Hcache. case_bool_decide as Hd.
    + subst id'. right. split; [lia|]. rewrite lookup_insert_eq. eauto.
    + rewrite lookup_insert_ne by congruence. rewrite Nat.add_0_r. apply H.
Qed.

Lemma lookedUpOnce_syncInstance env svc acct instance w0 w :
  lookedUpOnce w0 w ->
  (forall id,
      (count (isLookup id) (trace (snd (syncInstance env svc acct instance w)))
       <= S (count (isLookup id) (trace w0)))%nat) /\
  (fst (syncInstance env svc acct instance w) = None ->
   lookedUpOnce w0 (snd (syncInstance env svc acct instance w))).
Proof.
  intros H. rewrite syncInstance_unfold.
  destruct (lookedUpOnce_amiCreation env svc (ImageId instance) w0 w H) as [Hle Hinv].
  destruct (amiCreation env svc (ImageId instance) w) as [[create [e|]] w1];
    [split; [exact Hle | discriminate]|].
  specialize (Hinv eq_refl). cbn in Hinv, Hle.
  destruct (time_Parse create) as [t|e]; [|split; [exact Hle | discriminate]].
  assert (H' : lookedUpOnce w0 (fmt_Printf
                 (line acct instance (ageAt (time_Now env (trace w1)) t))
                 (record (EvNow (time_Now env (trace w1))) w1))).
  { apply (lookedUpOnce_record w0 w1 (EvNow (time_Now env (trace w1))));
      [reflexivity | exact Hinv]. }
  cbn. split; [intros id; apply (lookedUpOnce_le _ _ id H') | intros _; exact H'].
Qed.

Lemma lookedUpOnce_syncInstances env svc acct l w0 w :
  lookedUpOnce w0 w ->
  (forall id,
      (count (isLookup id) (trace (snd (forRange (syncInstance env svc acct) l w)))
       <= S (count (isLookup id) (trace w0)))%nat) /\
  (fst (forRange (syncInstance env svc acct) l w) = None ->
   lookedUpOnce w0 (snd (forRange (syncInstance env svc acct) l w))).
Proof.
  revert w. induction l as [|instance l IH]; intros w H; cbn.
  - split; [intros id; apply lookedUpOnce_le, H | intros _; exact H].
  - destruct (lookedUpOnce_syncInstance env svc acct instance w0 w H) as [Hle Hinv].
    destruct (syncInstance env svc acct instance w) as [[err|] w'];
      [split; [exact Hle | discriminate]|].
    apply IH, Hinv. reflexivity.
Qed.

Lemma lookedUpOnce_Sync env svc acct w0 w :
  lookedUpOnce w0 w ->
  (forall id,
      (count (isLookup id) (trace (snd (Sync env svc acct w)))
       <= S (count (isLookup id) (trace w0)))%nat) /\
  (fst (Sync env svc acct w) = None -> lookedUpOnce w0 (snd (Sync env svc acct w))).
Proof.
  intros H. rewrite Sync_unfold. cbn.
  set (out := ec2_DescribeInstances env (trace w) svc params).
  assert (H1 : lookedUpOnce w0 (record (EvDescribeInstances svc params out) w))
    by (apply lookedUpOnce_record; [reflexivity | exact H]).
  destruct out as [result|err].
  - apply lookedUpOnce_syncInstances, H1.
  - split; [intros id; apply lookedUpOnce_le, H1 | discriminate].
Qed.

(** X1. While one account is synchronised every image identifier is looked
    up at most once, whether the lookup finds an image or not; and after a
    [Sync] without an error, an identifier that was looked up is in the
    cache. *)
Theorem Sync_looks_up_once env svc acct w id :
  (count (isLookup id) (trace (snd (Sync env svc acct w)))
   <= S (count (isLookup id) (trace w)))%nat /\
  (fst (Sync env svc acct w) = None ->
   count (isLookup id) (trace (snd (Sync env svc acct w)))
     = S (count (isLookup id) (trace w)) ->
   is_Some (cache (snd (Sync env svc acct w)) !! id)).
Proof.
  destruct (lookedUpOnce_Sync env svc acct w w (lookedUpOnce_refl w)) as [Hle Hinv].
  split; [apply Hle|].
  intros Hok Hcount. destruct (Hinv Hok id) as [E|[_ Hc]]; [lia | exact Hc].
Qed.

(** X2. Without a role file, over the whole run every image identifier is
    looked up at most once, however many instances use the image and
    whether or not the lookup finds it. *)
Theorem single_account_looks_up_once env id :
  (count (isLookup id) (trace (snd (main env "" initial))) <= 1)%nat.
Proof.
  unfold main. destruct (session_NewSession env) as [err|]; [cbn; lia|].
  unfold GetCallerIdentity.
  set (out := sts_GetCallerIdentity env (trace (set_cache ∅ initial))).
  set (w1 := record (EvGetCallerIdentity out) (set_cache ∅ initial)).
  assert (H0 : count (isLookup id) (trace w1) = 0%nat) by reflexivity.
  destruct out as [acct|err]; [|cbn; lia].
  change (String.eqb "" "") with true. cbv iota.
  destruct (lookedUpOnce_Sync env {| Credentials := None |} acct w1 w1 (lookedUpOnce_refl w1))
    as [Hle _].
  specialize (Hle id). rewrite H0 in Hle.
  destruct (Sync env _ acct w1) as [[err|] w']; exact Hle.
Qed.

(** ** Comments *)

(** X7. A line of the role file that starts with [#] has no effect at all:
    the loop over the lines does what it does on the file without its
    comment lines. *)
Theorem comments_have_no_effect env lines w :
  roleLoop env lines w = roleLoop env (rolesOf lines) w.
Proof.
  revert w. induction lines as [|role lines IH]; intros w; [reflexivity|].
  unfold rolesOf. cbn [List.filter]. fold (rolesOf lines).
  destruct (isComment role) eqn:Hc; cbn [negb].
  - cbn [roleLoop]. unfold isComment in Hc.
    rewrite (syncRole_comment env role w Hc). apply IH.
  - cbn [roleLoop]. destruct (syncRole env role w) as [[|msg] w']; [apply IH | reflexivity].
Qed.

(** ** The listings of a run *)

Lemma listings_app tr1 tr2 : listings (tr1 ++ tr2) = listings tr1 ++ listings tr2.
Proof.
  induction tr1 as [|e tr1 IH]; [reflexivity|].
  destruct e; cbn; rewrite IH; reflexivity.
Qed.

Lemma amiCreation_listings env svc id w :
  listings (trace (snd (amiCreation env svc id w))) = listings (trace w).
Proof.
  pose proof (amiCreation_trace env svc id w) as T. cbn in T.
  destruct T as [[_ ->]|(_ & -> & _)]; [reflexivity|].
  rewrite listings_app. cbn. apply app_nil_r.
Qed.

(** [Sync] lists the instances once, with the client it was given. *)
Lemma Sync_listings env svc acct w :
  listings (trace (snd (Sync env svc acct w))) = listings (trace w) ++ [svc].
Proof.
  rewrite Sync_unfold. cbn.
  set (out := ec2_DescribeInstances env (trace w) svc params).
  assert (H1 : listings (trace (record (EvDescribeInstances svc params out) w))
               = listings (trace w) ++ [svc])
    by (cbn; rewrite listings_app; reflexivity).
  destruct out as [result|err]; [|exact H1].
  apply (syncInstances_preserve env
           (fun w' => listings (trace w') = listings (trace w) ++ [svc])); [| | |exact H1].
  - intros svc' id w' H. rewrite amiCreation_listings. exact H.
  - intros t w' H. cbn. rewrite listings_app, H. cbn. apply app_nil_r.
  - intros s w' H. exact H.
Qed.

Lemma roleLoop_listings env lines w :
  Forall wellFormed lines ->
  listings (trace (snd (roleLoop env lines w)))
    = listings (trace w) ++ map roleClient (rolesOf lines).
Proof.
  intros H. revert w. induction H as [|role lines Hrole _ IH]; intros w.
  - cbn. rewrite app_nil_r. reflexivity.
  - unfold rolesOf. cbn [List.filter roleLoop]. fold (rolesOf lines). unfold isComment.
    destruct (strings_HasPrefix role "#") eqn:Hc; cbn [negb].
    + rewrite (syncRole_comment env role w Hc). apply IH.
    + destruct Hrole as [Hrole|[acct Hacct]]; [congruence|].
      rewrite (syncRole_account env role w acct Hc Hacct), IH.
      assert (E : listings (trace (reported role (Sync env (roleClient role) acct w)))
                  = listings (trace w) ++ [roleClient role]).
      { rewrite <- (Sync_listings env (roleClient role) acct w). unfold reported.
        destruct (fst (Sync env (roleClient role) acct w)); reflexivity. }
      rewrite E, <- app_assoc. reflexivity.
Qed.

(** X8. With a role file whose lines are comments or roles with a fifth
    field, the instances are listed exactly once for each role, in the order
    of the file, each time with the credentials of that role, and never
    with the default credentials, whether or not the listings and lookups
    succeed. *)
Theorem one_listing_per_role env roles lines scanErr acct :
  session_NewSession env = None ->
  sts_GetCallerIdentity env [] = inl acct ->
  String.eqb roles "" = false ->
  os_Open env roles = inl (lines, scanErr) ->
  Forall wellFormed lines ->
  listings (trace (snd (main env roles initial))) = map roleClient (rolesOf lines).
Proof.
  intros Hs Hid Hroles Hopen Hlines.
  rewrite (main_roles env roles lines scanErr acct initial Hs Hid Hroles Hopen).
  pose proof (roleLoop_listings env lines
                (record (EvGetCallerIdentity (inl acct)) (set_cache ∅ initial)) Hlines) as H.
  pose proof (roleLoop_returns env lines
                (record (EvGetCallerIdentity (inl acct)) (set_cache ∅ initial)) Hlines) as Hret.
  destruct (roleLoop env lines _) as [x w']. cbn in Hret. subst x.
  destruct scanErr; exact H.
Qed.

Lemma one_listing_per_role_witness :
  listings (trace (snd (main isolationEnv "roles.list" initial)))
  = [roleClient sampleRole; roleClient otherRole].
Proof.
  apply (one_listing_per_role isolationEnv "roles.list"
           [sampleRole; "# dns"; otherRole] None "123456789090").
  - reflexivity.
  - reflexivity.
  - reflexivity.
  - reflexivity.
  - constructor; [right; vm_compute; eauto|].
    constructor; [left; reflexivity|].
    constructor; [right; vm_compute; eauto | constructor].
Defined.

(** ** Failures are reported *)

Lemma amiCreation_quiet env svc id w :
  snd (fst (amiCreation env svc id w)) = None ->
  count failedCall (trace (snd (amiCreation env svc id w))) = count failedCall (trace w).
Proof.
  intros Hok. pose proof (amiCreation_trace env svc id w) as T. cbn in T.
  destruct T as [[_ ->]|(_ & -> & Hfound)]; [reflexivity|].
  destruct (Hfound Hok) as (result & image & images & -> & Himages & _).
  rewrite count_snoc. cbn. rewrite Himages. lia.
Qed.

Lemma syncInstance_quiet env svc acct instance w w' :
  syncInstance env svc acct instance w = (None, w') ->
  count failedCall (trace w') = count failedCall (trace w).
Proof.
  intros H. destruct (syncInstance_success _ _ _ _ _ _ H) as (create & w1 & t & Hami & _ & ->).
  cbn. rewrite count_snoc. cbn. rewrite Nat.add_0_r.
  pose proof (amiCreation_quiet env svc (ImageId instance) w) as Hq.
  rewrite Hami in Hq. apply Hq. reflexivity.
Qed.

Lemma syncInstances_quiet env svc acct l w w' :
  forRange (syncInstance env svc acct) l w = (None, w') ->
  count failedCall (trace w') = count failedCall (trace w).
Proof.
  revert w. induction l as [|instance l IH]; intros w H; cbn in H; [congruence|].
  destruct (syncInstance env svc acct instance w) as [[err|] w1] eqn:E; [discriminate|].
  rewrite (IH w1 H). apply (syncInstance_quiet _ _ _ _ _ _ E).
Qed.

(** A [Sync] that returns no error has met no failure. *)
Lemma Sync_quiet env svc acct w :
  fst (Sync env svc acct w) = None ->
  count failedCall (trace (snd (Sync env svc acct w))) = count failedCall (trace w).
Proof.
  rewrite Sync_unfold. cbn.
  destruct (ec2_DescribeInstances env (trace w) svc params) as [result|err]; [|discriminate].
  intros Hok.
  destruct (forRange _ _ _) as [err w'] eqn:E. cbn in Hok. subst err. cbn [snd].
  rewrite (syncInstances_quiet _ _ _ _ _ _ E). cbn. rewrite count_snoc. cbn. lia.
Qed.

Lemma Printf_not_silent s w : stdout (fmt_Printf s w) <> [].
Proof. cbn. intros H. apply app_eq_nil in H as [_ H]. discriminate. Qed.

Lemma silent_before w w' : grows w w' -> stdout w' = [] -> stdout w = [].
Proof. intros [_ H] E. rewrite E in H. apply prefix_nil_inv in H. exact H. Qed.

(** With nothing on the output, no call of the history has failed. *)
Lemma silent_Sync env svc acct w :
  (stdout w = [] -> count failedCall (trace w) = 0%nat) ->
  fst (Sync env svc acct w) = None ->
  stdout (snd (Sync env svc acct w)) = [] ->
  count failedCall (trace (snd (Sync env svc acct w))) = 0%nat.
Proof.
  intros H Hok Hout. rewrite (Sync_quiet env svc acct w Hok).
  apply H, (silent_before _ _ (Sync_grows env svc acct w) Hout).
Qed.

Lemma silent_syncRole env role w :
  (stdout w = [] -> count failedCall (trace w) = 0%nat) ->
  stdout (snd (syncRole env role w)) = [] ->
  count failedCall (trace (snd (syncRole env role w))) = 0%nat.
Proof.
  intros H. unfold syncRole. destruct (strings_HasPrefix role "#"); [exact H|].
  destruct (strings_Split role ":" !! 4%nat) as [acct|]; [|exact H].
  pose proof (silent_Sync env {| Credentials := Some role |} acct w H) as HS.
  destruct (Sync env _ acct w) as [[err|] w']; cbn in *.
  - intros Hout. destruct (Printf_not_silent _ _ Hout).
  - apply HS. reflexivity.
Qed.

Lemma silent_roleLoop env lines w :
  (stdout w = [] -> count failedCall (trace w) = 0%nat) ->
  stdout (snd (roleLoop env lines w)) = [] ->
  count failedCall (trace (snd (roleLoop env lines w))) = 0%nat.
Proof.
  revert w. induction lines as [|role lines IH]; intros w H; cbn; [exact H|].
  pose proof (silent_syncRole env role w H) as H1.
  destruct (syncRole env role w) as [[|msg] w']; [apply IH, H1 | exact H1].
Qed.

(** X12. No failure goes unreported: when a run ends with nothing written to
    the output, the session was set up, and no call of the run (identity,
    listing of instances, image lookup) was answered with an error or with
    an empty list of images. *)
Theorem silence_means_no_failure env roles :
  stdout (snd (main env roles initial)) = [] ->
  session_NewSession env = None /\
  count failedCall (trace (snd (main env roles initial))) = 0%nat.
Proof.
  unfold main. destruct (session_NewSession env) as [err|].
  { intros Hout. destruct (Printf_not_silent _ _ Hout). }
  unfold GetCallerIdentity.
  set (out := sts_GetCallerIdentity env (trace (set_cache ∅ initial))).
  destruct out as [acct|err].
  2: { intros Hout. destruct (Printf_not_silent _ _ Hout). }
  set (w1 := record (EvGetCallerIdentity (inl acct)) (set_cache ∅ initial)).
  assert (H1 : stdout w1 = [] -> count failedCall (trace w1) = 0%nat) by reflexivity.
  destruct (String.eqb roles "").
  - pose proof (silent_Sync env {| Credentials := None |} acct w1 H1) as HS.
    destruct (Sync env _ acct w1) as [[err|] w']; cbn in *.
    + intros Hout. destruct (Printf_not_silent _ _ Hout).
    + intros Hout. split; [reflexivity | apply HS; [reflexivity | exact Hout]].
  - destruct (os_Open env roles) as [[lines scanErr]|err].
    2: { intros Hout. destruct (Printf_not_silent _ _ Hout). }
    pose proof (silent_roleLoop env lines w1 H1) as HR.
    destruct (roleLoop env lines w1) as [[|msg] w']; cbn in *.
    + destruct scanErr as [err|].
      * intros Hout. destruct (Printf_not_silent _ _ Hout).
      * intros Hout. split; [reflexivity | apply HR, Hout].
    + intros Hout. split; [reflexivity | apply HR, Hout].
Qed.

Lemma silence_means_no_failure_witness :
  count failedCall (trace (snd (main quietEnv "" initial))) = 0%nat.
Proof.
  apply (silence_means_no_failure quietEnv ""). reflexivity.
Defined.

(** ** The clock *)

Lemma syncInstance_clock env svc acct instance w :
  (count isNow (trace (snd (syncInstance env svc acct instance w))) + length (stdout w)
   = count isNow (trace w) + length (stdout (snd (syncInstance env svc acct instance w))))%nat.
Proof.
  rewrite syncInstance_unfold.
  pose proof (amiCreation_trace env svc (ImageId instance) w) as T. cbn in T.
  pose proof (amiCreation_stdout env svc (ImageId instance) w) as Hout.
  assert (Hnow : count isNow (trace (snd (amiCreation env svc (ImageId instance) w)))
                 = count isNow (trace w)).
  { destruct T as [[_ ->]|(_ & -> & _)]; [reflexivity|].
    rewrite count_snoc. cbn. lia. }
  destruct (amiCreation env svc (ImageId instance) w) as [[create [e|]] w1];
    cbn [snd] in *; [rewrite Hout, Hnow; reflexivity|].
  destruct (time_Parse create) as [t|e]; cbn [snd]; [|rewrite Hout, Hnow; reflexivity].
  cbn [trace stdout fmt_Printf record]. rewrite count_snoc, length_app, Hout, Hnow.
  cbn. lia.
Qed.

(** X13. [Sync] reads the clock once for every line it prints, and not
    otherwise: over one [Sync] the number of clock readings grows by the
    number of lines written. *)
Theorem Sync_reads_clock_per_line env svc acct w :
  (count isNow (trace (snd (Sync env svc acct w))) + length (stdout w)
   = count isNow (trace w) + length (stdout (snd (Sync env svc acct w))))%nat.
Proof.
  rewrite Sync_unfold. cbn.
  set (out := ec2_DescribeInstances env (trace w) svc params).
  set (w1 := record (EvDescribeInstances svc params out) w).
  assert (H1 : (count isNow (trace w1) + length (stdout w)
                = count isNow (trace w) + length (stdout w1))%nat).
  { unfold w1. cbn. rewrite count_snoc. cbn. lia. }
  destruct out as [result|err]; [|exact H1].
  generalize (allInstances result). intros l.
  assert (G : forall w',
             (count isNow (trace w') + length (stdout w)
              = count isNow (trace w) + length (stdout w'))%nat ->
             (count isNow (trace (snd (forRange (syncInstance env svc acct) l w')))
                + length (stdout w)
              = count isNow (trace w)
                + length (stdout (snd (forRange (syncInstance env svc acct) l w'))))%nat).
  { induction l as [|instance l IH]; intros w' H; cbn; [exact H|].
    pose proof (syncInstance_clock env svc acct instance w') as Hc.
    destruct (syncInstance env svc acct instance w') as [[err|] w2]; cbn in Hc.
    - cbn. lia.
    - apply IH. lia. }
  apply G, H1.
Qed.

(** ** The age as time passes *)

Section AgeOrder.
Local Open Scope Q_scope.

Lemma int_of_float64_floor x : 0 <= x -> int_of_float64 x = Qfloor x.
Proof.
  destruct x as [a b]. unfold Qle; cbn. intros H.
  apply Z.quot_div_nonneg; lia.
Qed.

Lemma int_of_float64_mono x y : x <= y -> (int_of_float64 x <= int_of_float64 y)%Z.
Proof.
  intros H. destruct (Qlt_le_dec x 0) as [Hx|Hx]; destruct (Qlt_le_dec y 0) as [Hy|Hy].
  - assert (E1 : int_of_float64 x = (- int_of_float64 (- x))%Z)
      by (rewrite int_of_float64_opp; lia).
    assert (E2 : int_of_float64 y = (- int_of_float64 (- y))%Z)
      by (rewrite int_of_float64_opp; lia).
    rewrite E1, E2, !int_of_float64_floor by lra.
    assert (Qfloor (- y) <= Qfloor (- x))%Z by (apply Qfloor_resp_le; lra). lia.
  - assert (E1 : int_of_float64 x = (- int_of_float64 (- x))%Z)
      by (rewrite int_of_float64_opp; lia).
    rewrite E1, !int_of_float64_floor by lra.
    assert (Qfloor 0 <= Qfloor (- x))%Z by (apply Qfloor_resp_le; lra).
    assert (Qfloor 0 <= Qfloor y)%Z by (apply Qfloor_resp_le; lra).
    change (Qfloor 0) with 0%Z in *. lia.
  - lra.
  - rewrite !int_of_float64_floor by lra. apply Qfloor_resp_le, H.
Qed.

(** The fraction of an hour is between -1 and 1 and has the sign of the
    nanoseconds. *)
Lemma hour_fraction n :
  (- Hour < n < Hour)%Z ->
  let q := fdiv (float64_of_int n) (60 * 60 * 1000000000) in
  q = RN (inject_Z n / (60 * 60 * 1000000000)) /\ -1 <= q <= 1 /\
  ((0 <= n)%Z -> 0 <= q) /\ ((n <= 0)%Z -> q <= 0).
Proof.
  intros Hn q. assert (HH : Hour = 3600000000000%Z) by reflexivity. rewrite HH in Hn.
  assert (E : q = RN (inject_Z n / (60 * 60 * 1000000000))).
  { apply RN_comp. unfold float64_of_int. rewrite RN_int by lia. reflexivity. }
  assert (B1 : inject_Z (-3600000000000) <= inject_Z n) by (apply inject_Z_le; lia).
  assert (B2 : inject_Z n <= inject_Z 3600000000000) by (apply inject_Z_le; lia).
  change (inject_Z (-3600000000000)) with (-3600000000000) in B1.
  change (inject_Z 3600000000000) with 3600000000000 in B2.
  split; [exact E|]. rewrite E. split; [split|split].
  - change (-1) with (inject_Z (-1)). apply RN_ge_int; [cbn; lia|].
    change (inject_Z (-1)) with (-1). apply Qle_shift_div_l; [reflexivity|]. lra.
  - change 1 with (inject_Z 1). apply RN_le_int; [cbn; lia|].
    change (inject_Z 1) with 1. apply Qle_shift_div_r; [reflexivity|]. lra.
  - intros H0. apply (inject_Z_le 0) in H0. change (inject_Z 0) with 0 in H0.
    change 0 with (RN 0). apply RN_mono. apply Qle_shift_div_l; [reflexivity|]. lra.
  - intros H0. apply (inject_Z_le n 0) in H0. change (inject_Z 0) with 0 in H0.
    change 0 with (RN 0). apply RN_mono. apply Qle_shift_div_r; [reflexivity|]. lra.
Qed.

Lemma Duration_Hours_mono (d1 d2 : Duration) :
  (minDuration <= d1)%Z -> (d1 <= d2)%Z -> (d2 <= maxDuration)%Z ->
  Duration_Hours d1 <= Duration_Hours d2.
Proof.
  unfold minDuration, maxDuration. intros Hmin Hle Hmax.
  assert (HH : Hour = 3600000000000%Z) by reflexivity.
  unfold Duration_Hours.
  pose proof (Z.quot_rem' d1 Hour) as E1. pose proof (Z.quot_rem' d2 Hour) as E2.
  assert (R1 : (- Hour < Z.rem d1 Hour < Hour)%Z).
  { pose proof (Z.rem_bound_abs d1 Hour ltac:(rewrite HH; lia)). rewrite HH in *. lia. }
  assert (R2 : (- Hour < Z.rem d2 Hour < Hour)%Z).
  { pose proof (Z.rem_bound_abs d2 Hour ltac:(rewrite HH; lia)). rewrite HH in *. lia. }
  assert (S1 : (0 <= d1 -> 0 <= Z.rem d1 Hour /\ 0 <= Z.quot d1 Hour)%Z).
  { intros H. split; [apply Z.rem_nonneg | apply Z.quot_pos]; rewrite ?HH; lia. }
  assert (S2 : (0 <= d2 -> 0 <= Z.rem d2 Hour /\ 0 <= Z.quot d2 Hour)%Z).
  { intros H. split; [apply Z.rem_nonneg | apply Z.quot_pos]; rewrite ?HH; lia. }
  assert (T1 : (d1 <= 0 -> Z.rem d1 Hour <= 0 /\ Z.quot d1 Hour <= 0)%Z).
  { intros H. split; [apply Z.rem_nonpos | ]; rewrite ?HH; try lia.
    rewrite <- (Z.opp_involutive d1), Z.quot_opp_l by lia.
    assert (0 <= Z.quot (- d1) 3600000000000)%Z by (apply Z.quot_pos; lia). lia. }
  assert (T2 : (d2 <= 0 -> Z.rem d2 Hour <= 0 /\ Z.quot d2 Hour <= 0)%Z).
  { intros H. split; [apply Z.rem_nonpos | ]; rewrite ?HH; try lia.
    rewrite <- (Z.opp_involutive d2), Z.quot_opp_l by lia.
    assert (0 <= Z.quot (- d2) 3600000000000)%Z by (apply Z.quot_pos; lia). lia. }
  destruct (hour_fraction _ R1) as (Q1 & [L1 U1] & P1 & N1).
  destruct (hour_fraction _ R2) as (Q2 & [L2 U2] & P2 & N2).
  set (h1 := Z.quot d1 Hour) in *. set (n1 := Z.rem d1 Hour) in *.
  set (h2 := Z.quot d2 Hour) in *. set (n2 := Z.rem d2 Hour) in *.
  set (q1 := fdiv (float64_of_int n1) (60 * 60 * 1000000000)) in *.
  set (q2 := fdiv (float64_of_int n2) (60 * 60 * 1000000000)) in *.
  rewrite HH in *.
  assert (Hh1 : (Z.abs h1 < 2 ^ 53)%Z) by lia.
  assert (Hh2 : (Z.abs h2 < 2 ^ 53)%Z) by lia.
  unfold fadd, float64_of_int. apply RN_mono.
  rewrite (RN_int h1 Hh1), (RN_int h2 Hh2).
  destruct (Z.eq_dec h1 h2) as [Eh|Nh].
  - rewrite Eh. assert (Hn : (n1 <= n2)%Z) by lia.
    assert (q1 <= q2); [|lra].
    rewrite Q1, Q2. apply RN_mono.
    apply Qmult_le_compat_r; [apply inject_Z_le, Hn | discriminate].
  - assert (Hlt : (h1 + 1 <= h2)%Z) by lia.
    apply inject_Z_le in Hlt. rewrite inject_Z_plus in Hlt.
    change (inject_Z 1) with 1 in Hlt.
    destruct (Z_le_gt_dec 0 d1) as [D1|D1].
    + destruct (S1 D1) as [A _]. destruct (S2 ltac:(lia)) as [B _].
      specialize (P2 B). lra.
    + destruct (T1 ltac:(lia)) as [A _]. specialize (N1 A).
      destruct (Z_le_gt_dec 0 d2) as [D2|D2].
      * destruct (S2 D2) as [B _]. specialize (P2 B). lra.
      * lra.
Qed.

Lemma days_mono (d1 d2 : Duration) :
  (minDuration <= d1)%Z -> (d1 <= d2)%Z -> (d2 <= maxDuration)%Z ->
  (int_of_float64 (fdiv (Duration_Hours d1) 24)
   <= int_of_float64 (fdiv (Duration_Hours d2) 24))%Z.
Proof.
  intros Hmin Hle Hmax. apply int_of_float64_mono. unfold fdiv. apply RN_mono.
  apply Qmult_le_compat_r; [apply Duration_Hours_mono; assumption | discriminate].
Qed.
End AgeOrder.

Lemma Time_Sub_mono now1 now2 t :
  now1 <= now2 -> Time_Sub now1 t <= Time_Sub now2 t.
Proof.
  unfold Time_Sub, minDuration, maxDuration. intros H.
  destruct (Z.ltb_spec (now1 - t) (- 2 ^ 63)), (Z.ltb_spec (now2 - t) (- 2 ^ 63)); try lia;
    destruct (Z.ltb_spec (2 ^ 63 - 1) (now1 - t)), (Z.ltb_spec (2 ^ 63 - 1) (now2 - t)); lia.
Qed.

(** X10. The age that is printed for an image never goes down as the clock
    goes on: a later reading of the clock gives the same number of days or
    more, also across the roundings of the [float64] division. *)
Theorem ageAt_never_decreases now1 now2 t :
  now1 <= now2 -> ageAt now1 t <= ageAt now2 t.
Proof.
  intros H. unfold ageAt.
  apply days_mono; [apply Time_Sub_range | apply Time_Sub_mono, H | apply Time_Sub_range].
Qed.

Lemma ageAt_never_decreases_witness :
  ageAt (time_Date 2024 1 11 0 0 0 0) (time_Date 2024 1 1 0 0 0 0)
  <= ageAt (time_Date 2024 1 11 0 0 0 1) (time_Date 2024 1 1 0 0 0 0).
Proof.
  apply (ageAt_never_decreases (time_Date 2024 1 11 0 0 0 0) (time_Date 2024 1 11 0 0 0 1)).
  vm_compute. discriminate.
Defined.

(** At whole days the division is exact. *)
Lemma days_at_multiple k :
  minDuration <= k * Day <= maxDuration ->
  int_of_float64 (fdiv (Duration_Hours (k * Day)) 24) = k.
Proof.
  intros H. rewrite days_quot; [apply Z.quot_mul; discriminate | exact H |].
  rewrite Z.rem_mul by discriminate. cbn. discriminate.
Qed.

Lemma days_near_quot d :
  minDuration <= d <= maxDuration ->
  let days := int_of_float64 (fdiv (Duration_Hours d) 24) in
  (0 <= d -> Z.quot d Day <= days <= Z.quot d Day + 1) /\
  (d <= 0 -> Z.quot d Day - 1 <= days <= Z.quot d Day) /\
  -106751 <= days <= 106751.
Proof.
  intros Hd days.
  assert (HD : Day = 86400000000000) by reflexivity.
  assert (Hmax : int_of_float64 (fdiv (Duration_Hours maxDuration) 24) = 106751)
    by (vm_compute; reflexivity).
  assert (Hmin : int_of_float64 (fdiv (Duration_Hours minDuration) 24) = -106751)
    by (vm_compute; reflexivity).
  assert (Hup : days <= 106751).
  { rewrite <- Hmax. apply days_mono; lia. }
  assert (Hlo : -106751 <= days).
  { rewrite <- Hmin. apply days_mono; lia. }
  unfold minDuration, maxDuration in *.
  split; [|split; [|lia]].
  - intros Hpos. rewrite Z.quot_div_nonneg by lia.
    pose proof (Z.div_mod d Day ltac:(lia)) as E.
    pose proof (Z.mod_pos_bound d Day ltac:(lia)) as B.
    set (k := d / Day) in *. rewrite HD in E, B. split.
    + rewrite <- (days_at_multiple k) by (unfold minDuration, maxDuration; lia).
      apply days_mono; unfold minDuration, maxDuration; lia.
    + destruct (Z_le_gt_dec ((k + 1) * Day) (2 ^ 63 - 1)) as [Hfit|Hover].
      * rewrite <- (days_at_multiple (k + 1)) by (unfold minDuration, maxDuration; lia).
        apply days_mono; unfold minDuration, maxDuration; lia.
      * rewrite HD in Hover. lia.
  - intros Hneg.
    assert (Eq : Z.quot d Day = - ((- d) / Day)).
    { rewrite <- (Z.opp_involutive d) at 1. rewrite Z.quot_opp_l by lia.
      rewrite Z.quot_div_nonneg by lia. reflexivity. }
    rewrite Eq.
    pose proof (Z.div_mod (- d) Day ltac:(lia)) as E.
    pose proof (Z.mod_pos_bound (- d) Day ltac:(lia)) as B.
    set (k := (- d) / Day) in *. rewrite HD in E, B. split.
    + destruct (Z_le_gt_dec (- 2 ^ 63) ((- k - 1) * Day)) as [Hfit|Hover].
      * rewrite <- (days_at_multiple (- k - 1)) by (unfold minDuration, maxDuration; lia).
        apply days_mono; unfold minDuration, maxDuration; lia.
      * rewrite HD in Hover. lia.
    + rewrite <- (days_at_multiple (- k)) by (unfold minDuration, maxDuration; lia).
      apply days_mono; unfold minDuration, maxDuration; lia.
Qed.

(** X11. Whatever the two instants, the age that is printed is the quotient
    of their difference (kept within the range of a [Duration]) by 24 hours,
    rounded towards zero, or one day further from zero: the [float64]
    division is never off by more than a day, and never on the side of
    zero.  The number printed is between -106751 and 106751. *)
Theorem ageAt_within_a_day now t :
  let diff := Time_Sub now t in
  (0 <= diff -> Z.quot diff Day <= ageAt now t <= Z.quot diff Day + 1) /\
  (diff <= 0 -> Z.quot diff Day - 1 <= ageAt now t <= Z.quot diff Day) /\
  -106751 <= ageAt now t <= 106751.
Proof.
  intros diff. unfold ageAt. fold diff.
  apply (days_near_quot diff). apply Time_Sub_range.
Qed.


(** ** The lookups of an account *)

Lemma lookups_app tr1 tr2 : lookups (tr1 ++ tr2) = lookups tr1 ++ lookups tr2.
Proof.
  induction tr1 as [|e tr1 IH]; [reflexivity|].
  destruct e; cbn; rewrite IH; reflexivity.
Qed.

Lemma syncInstance_lookups env svc acct instance w :
  lookups (trace (snd (syncInstance env svc acct instance w))) = lookups (trace w) \/
  lookups (trace (snd (syncInstance env svc acct instance w)))
    = lookups (trace w) ++ [(svc, [ImageId instance])].
Proof.
  rewrite syncInstance_unfold.
  pose proof (amiCreation_trace env svc (ImageId instance) w) as T. cbn in T.
  assert (H : lookups (trace (snd (amiCreation env svc (ImageId instance) w)))
              = lookups (trace w) \/
              lookups (trace (snd (amiCreation env svc (ImageId instance) w)))
              = lookups (trace w) ++ [(svc, [ImageId instance])]).
  { destruct T as [[_ ->]|(_ & -> & _)]; [left; reflexivity | right].
    rewrite lookups_app. reflexivity. }
  destruct (amiCreation env svc (ImageId instance) w) as [[create [e|]] w1];
    cbn [snd] in *; [exact H|].
  destruct (time_Parse create) as [t|e]; cbn [snd]; [|exact H].
  cbn [trace fmt_Printf record]. rewrite lookups_app. cbn. rewrite app_nil_r. exact H.
Qed.

Lemma syncInstances_lookups env svc acct l w :
  exists more,
    lookups (trace (snd (forRange (syncInstance env svc acct) l w)))
      = lookups (trace w) ++ more /\
    Forall (fun c => fst c = svc /\ exists instance, In instance l /\ snd c = [ImageId instance])
           more.
Proof.
  revert w. induction l as [|instance l IH]; intros w; cbn [forRange].
  - exists []. rewrite app_nil_r. split; [reflexivity | constructor].
  - pose proof (syncInstance_lookups env svc acct instance w) as Hstep.
    assert (Hhere : forall w' : World,
               lookups (trace w') = lookups (trace w) \/
               lookups (trace w') = lookups (trace w) ++ [(svc, [ImageId instance])] ->
               exists more,
                 lookups (trace w') = lookups (trace w) ++ more /\
                 Forall (fun c => fst c = svc /\
                                  exists i, In i (instance :: l) /\ snd c = [ImageId i]) more).
    { intros w' [E|E]; [exists [] | exists [(svc, [ImageId instance])]].
      - rewrite app_nil_r. split; [exact E | constructor].
      - split; [exact E|]. constructor; [|constructor].
        split; [reflexivity|]. exists instance. split; [left; reflexivity | reflexivity]. }
    destruct (syncInstance env svc acct instance w) as [[err|] w1]; cbn [snd] in *.
    + apply Hhere, Hstep.
    + destruct (Hhere w1 Hstep) as (m1 & E1 & F1).
      destruct (IH w1) as (m2 & E2 & F2).
      exists (m1 ++ m2). split; [rewrite E2, E1, app_assoc; reflexivity|].
      apply Forall_app. split; [exact F1|].
      eapply Forall_impl; [exact F2|].
      intros c (Hc & i & Hi & Hids). split; [exact Hc|].
      exists i. split; [right; exact Hi | exact Hids].
Qed.

(** X14. The image lookups that [Sync] makes are made with the client that
    [Sync] was given, and each of them asks for exactly one identifier, the
    image of an instance of the answer to the listing. *)
Theorem Sync_looks_up_its_own_images env svc acct w :
  exists more,
    lookups (trace (snd (Sync env svc acct w))) = lookups (trace w) ++ more /\
    Forall (fun c =>
              fst c = svc /\
              exists result instance,
                ec2_DescribeInstances env (trace w) svc params = inl result /\
                In instance (allInstances result) /\
                snd c = [ImageId instance])
           more.
Proof.
  rewrite Sync_unfold. cbn.
  destruct (ec2_DescribeInstances env (trace w) svc params) as [result|err] eqn:Hout.
  - destruct (syncInstances_lookups env svc acct (allInstances result)
                (record (EvDescribeInstances svc params (inl result)) w))
      as (more & E & F).
    exists more. split.
    + rewrite E. cbn. rewrite lookups_app. cbn. rewrite app_nil_r. reflexivity.
    + eapply Forall_impl; [exact F|].
      intros c (Hc & i & Hi & Hids). split; [exact Hc|]. exists result, i. auto.
  - exists []. cbn. rewrite lookups_app. cbn. rewrite !app_nil_r.
    split; [reflexivity | constructor].
Qed.

Lemma syncRole_lookup_count env role w id :
  (count (isLookup id) (trace (snd (syncRole env role w)))
   <= count (isLookup id) (trace w) + if isComment role then 0 else 1)%nat.
Proof.
  unfold syncRole, isComment. destruct (strings_HasPrefix role "#"); [cbn; lia|].
  destruct (strings_Split role ":" !! 4%nat) as [acct|]; [|cbn; lia].
  destruct (lookedUpOnce_Sync env {| Credentials := Some role |} acct w w
              (lookedUpOnce_refl w)) as [Hle _].
  specialize (Hle id).
  destruct (Sync env _ acct w) as [[err|] w']; cbn in *; lia.
Qed.

(** X15. With a role file an image identifier is looked up at most once for
    each role of the file: over the loop the number of lookups of an
    identifier grows by at most the number of lines that are not comments. *)
Theorem one_lookup_per_role env lines w id :
  (count (isLookup id) (trace (snd (roleLoop env lines w)))
   <= count (isLookup id) (trace w) + length (rolesOf lines))%nat.
Proof.
  revert w. induction lines as [|role lines IH]; intros w; [cbn; lia|].
  unfold rolesOf. cbn [List.filter roleLoop]. fold (rolesOf lines).
  pose proof (syncRole_lookup_count env role w id) as Hstep.
  destruct (syncRole env role w) as [[|msg] w']; cbn [snd] in *.
  - specialize (IH w'). destruct (isComment role); cbn [negb length] in *; lia.
  - destruct (isComment role); cbn [negb length] in *; lia.
Qed.
